(** * US domestic airline flights dashboard: the aggregation core

    A shallow embedding of [airline_dashborad.py]: the year filter, the two
    aggregators [compute_data_choice_1] and [compute_data_choice_2], and the
    callback [get_graph] that binds them to the two dropdown selectors.

    Modelling conventions.
    - A pandas data frame is a list of rows in index order; a row is a
      [FlightRecord].  Any field the data set leaves empty holds [None]
      (pandas' NaN), whatever its column.
    - Numeric columns are exact rationals ([Q]); binary floating point
      rounding and integer overflow are outside the model.  A statement that
      depends on the arithmetic (an equality of regrouped sums, a bound on a
      sum or a mean) is a statement about exact arithmetic and says so; a
      statement about which rows an aggregate row is computed from does not
      depend on it.
    - [groupby(keys)[col].agg().reset_index()] is pandas' default group-by:
      rows with a missing key are dropped ([dropna=True]), groups come out
      sorted by key ([sort=True]), rows keep their order inside a group.
    - [Series.sum] and [Series.mean] skip missing values ([skipna=True]); the
      mean of no values is missing. *)

From Stdlib Require Import List ZArith QArith Qfield String Ascii Bool Lia.
From Stdlib Require Import Permutation Sorted Setoid Morphisms RelationClasses.
Import ListNotations.

Local Open Scope Z_scope.

(** ** Data model *)

(** One row of [airline_data.csv], restricted to the columns the program
    reads. *)
Record FlightRecord : Type := mkFlight {
  Year : option Z;
  Month : option Z;
  Reporting_Airline : option string;
  CancellationCode : option string;
  AirTime : option Q;
  OriginState : option string;
  DestState : option string;
  Flights : option Q;
  DivAirportLandings : option Q;
  CarrierDelay : option Q;
  WeatherDelay : option Q;
  NASDelay : option Q;
  SecurityDelay : option Q;
  LateAircraftDelay : option Q
}.

Definition Table : Type := list FlightRecord.

(** [year_list = [i for i in range(2005, 2021, 1)]] *)
Definition year_list : list Z := map Z.of_nat (seq 2005 16).

(** ** Ordered group keys *)

Class Cmp (K : Type) : Type := cmp : K -> K -> comparison.

Class CmpLaws (K : Type) `{Cmp K} : Prop := {
  cmp_eq : forall a b : K, cmp a b = Eq <-> a = b;
  cmp_antisym : forall a b : K, cmp a b = CompOpp (cmp b a);
  cmp_trans : forall a b c : K, cmp a b = Lt -> cmp b c = Lt -> cmp a c = Lt
}.

#[export] Instance Cmp_Z : Cmp Z := Z.compare.
#[export] Instance Cmp_string : Cmp string := String.compare.

(** Tuples of key columns compare lexicographically, as Python tuples do. *)
#[export] Instance Cmp_prod {A B : Type} `{Cmp A} `{Cmp B} : Cmp (A * B) :=
  fun x y =>
    match cmp (fst x) (fst y) with
    | Eq => cmp (snd x) (snd y)
    | c => c
    end.

(** ** pandas primitives *)

Module Pandas.

(** The sum of a list of numbers. *)
Definition Qsum (l : list Q) : Q := fold_right Qplus 0%Q l.

(** [Series.dropna()] *)
Fixpoint dropna (l : list (option Q)) : list Q :=
  match l with
  | [] => []
  | Some v :: l' => v :: dropna l'
  | None :: l' => dropna l'
  end.

(** [Series.sum()]: missing values are skipped; no value left gives 0. *)
Definition Series_sum (l : list (option Q)) : Q := Qsum (dropna l).

(** [Series.mean()]: missing values are skipped; no value left gives NaN. *)
Definition mean (l : list (option Q)) : option Q :=
  match dropna l with
  | [] => None
  | vs => Some (Qsum vs / inject_Z (Z.of_nat (List.length vs)))%Q
  end.

(** [Series.max()] over present values. *)
Definition Qmax_list (l : list Q) : option Q :=
  match l with
  | [] => None
  | v :: l' => Some (fold_left (fun m x => if Qle_bool m x then x else m) l' v)
  end.

Section GroupBy.
Context {K : Type} `{Cmp K}.

(** Put row [r] into the group of key [k], opening the group at its sorted
    position when it is new. *)
Fixpoint add_to_group (k : K) (r : FlightRecord) (gs : list (K * Table))
  : list (K * Table) :=
  match gs with
  | [] => [(k, [r])]
  | (k', g) :: gs' =>
      match cmp k k' with
      | Eq => (k', g ++ [r]) :: gs'
      | Lt => (k, [r]) :: gs
      | Gt => (k', g) :: add_to_group k r gs'
      end
  end.

Definition add_row (key : FlightRecord -> option K)
           (gs : list (K * Table)) (r : FlightRecord) : list (K * Table) :=
  match key r with
  | Some k => add_to_group k r gs
  | None => gs
  end.

(** [df.groupby(keys)]: the groups, sorted by key. *)
Definition groupby (key : FlightRecord -> option K) (df : Table)
  : list (K * Table) :=
  fold_left (add_row key) df [].

(** [df.groupby(keys)[col].sum().reset_index()] *)
Definition groupby_sum (key : FlightRecord -> option K)
           (col : FlightRecord -> option Q) (df : Table) : list (K * Q) :=
  map (fun kg => (fst kg, Series_sum (map col (snd kg)))) (groupby key df).

(** [df.groupby(keys)[col].mean().reset_index()] *)
Definition groupby_mean (key : FlightRecord -> option K)
           (col : FlightRecord -> option Q) (df : Table)
  : list (K * option Q) :=
  map (fun kg => (fst kg, mean (map col (snd kg)))) (groupby key df).
End GroupBy.

(** Two key columns: the key of a row is missing as soon as one of them
    is. *)
Definition key2 {A B : Type} (a : option A) (b : option B) : option (A * B) :=
  match a, b with
  | Some x, Some y => Some (x, y)
  | _, _ => None
  end.

(** [s == y] on an integer column: NaN equals nothing. *)
Definition eq_int (x : option Z) (y : Z) : bool :=
  match x with
  | Some v => v =? y
  | None => false
  end.

(** [s != 0.0] on a float column: NaN compares unequal to everything. *)
Definition ne_zero (x : option Q) : bool :=
  match x with
  | Some v => negb (Qeq_bool v 0)
  | None => true
  end.

End Pandas.
Import Pandas.

(** ** The aggregators *)

(** Key columns of the group-bys; a row lacking one of them has no key. *)
Definition key_Month_CancellationCode (r : FlightRecord) : option (Z * string) :=
  key2 (Month r) (CancellationCode r).

Definition key_Month_Airline (r : FlightRecord) : option (Z * string) :=
  key2 (Month r) (Reporting_Airline r).

Definition key_OriginState (r : FlightRecord) : option string :=
  OriginState r.

Definition key_DestState_Airline (r : FlightRecord) : option (string * string) :=
  key2 (DestState r) (Reporting_Airline r).

Record Choice1 : Type := mkChoice1 {
  bar_data : list (Z * string * Q);
  line_data : list (Z * string * option Q);
  div_data : Table;
  map_data : list (string * Q);
  tree_data : list (string * string * Q)
}.

Definition compute_data_choice_1 (df : Table) : Choice1 :=
  {| bar_data := groupby_sum key_Month_CancellationCode Flights df;
     line_data := groupby_mean key_Month_Airline AirTime df;
     div_data := filter (fun r => ne_zero (DivAirportLandings r)) df;
     map_data := groupby_sum key_OriginState Flights df;
     tree_data := groupby_sum key_DestState_Airline Flights df |}.

Record Choice2 : Type := mkChoice2 {
  avg_car : list (Z * string * option Q);
  avg_weather : list (Z * string * option Q);
  avg_NAS : list (Z * string * option Q);
  avg_sec : list (Z * string * option Q);
  avg_late : list (Z * string * option Q)
}.

Definition compute_data_choice_2 (df : Table) : Choice2 :=
  {| avg_car := groupby_mean key_Month_Airline CarrierDelay df;
     avg_weather := groupby_mean key_Month_Airline WeatherDelay df;
     avg_NAS := groupby_mean key_Month_Airline NASDelay df;
     avg_sec := groupby_mean key_Month_Airline SecurityDelay df;
     avg_late := groupby_mean key_Month_Airline LateAircraftDelay df |}.

(** [airline_data[airline_data["Year"] == y]] *)
Definition filter_year (airline_data : Table) (y : Z) : Table :=
  filter (fun r => eq_int (Year r) y) airline_data.

(** ** The callback *)

(** A plotly express figure: the chart kind, the data frame it draws and the
    arguments the source passes. *)
Inductive Figure : Type :=
| px_bar (data : list (Z * string * Q)) (title : string)
| px_line (data : list (Z * string * option Q)) (y title : string)
| px_pie (data : Table) (title : string)
| px_choropleth (data : list (string * Q)) (range_color : Q * option Q)
                (title_text : string)
| px_treemap (data : list (string * string * Q)) (title : string).

Inductive PyExn : Type := TypeError.

(** What a run went through, in order: the observation used to say that a
    step did or did not execute. *)
Inductive Step : Type :=
| step_filter_year (y : Z)
| step_compute_data_choice_1 (df : Table)
| step_compute_data_choice_2 (df : Table).

(** The module-level state a function body can reach besides its arguments. *)
Record Globals : Type := mkGlobals { airline_data : Table }.

Record Outcome (A : Type) : Type := mkOutcome {
  globals_after : Globals;
  steps : list Step;
  result : PyExn + A
}.
Arguments mkOutcome {A}.
Arguments globals_after {A}.
Arguments steps {A}.
Arguments result {A}.

(** Python code as a function of the globals it starts from. *)
Definition Py (A : Type) : Type := Globals -> Outcome A.

Definition ret {A : Type} (a : A) : Py A :=
  fun g => mkOutcome g [] (inr a).

Definition raise {A : Type} (e : PyExn) : Py A :=
  fun g => mkOutcome g [] (inl e).

Definition bind {A B : Type} (m : Py A) (k : A -> Py B) : Py B :=
  fun g =>
    let o := m g in
    match result o with
    | inl e => mkOutcome (globals_after o) (steps o) (inl e)
    | inr a =>
        let o' := k a (globals_after o) in
        mkOutcome (globals_after o') (steps o ++ steps o') (result o')
    end.

Definition read_airline_data : Py Table :=
  fun g => mkOutcome g [] (inr (airline_data g)).

Definition note (s : Step) : Py unit :=
  fun g => mkOutcome g [s] (inr tt).

Declare Scope py_scope.
Delimit Scope py_scope with py.
Notation "x <- m ;; k" := (bind m (fun x => k))
  (at level 61, m at next level, right associativity) : py_scope.
Notation "m ;; k" := (bind m (fun _ => k))
  (at level 61, right associativity) : py_scope.
Local Open Scope py_scope.

(** [int(year)]: the dropdown hands over an integer, or [None] while nothing
    is selected, and [int(None)] raises. *)
Definition py_int (year : option Z) : Py Z :=
  match year with
  | Some y => ret y
  | None => raise TypeError
  end.

(** [chart == "OPT1"] *)
Definition is_OPT1 (chart : option string) : bool :=
  match chart with
  | Some s => String.eqb s "OPT1"
  | None => false
  end.

(** The two aggregators as the callback calls them. *)
Definition call_compute_data_choice_1 (df : Table) : Py Choice1 :=
  note (step_compute_data_choice_1 df) ;; ret (compute_data_choice_1 df).

Definition call_compute_data_choice_2 (df : Table) : Py Choice2 :=
  note (step_compute_data_choice_2 df) ;; ret (compute_data_choice_2 df).

Definition performance_figures (c : Choice1) : list Figure :=
  [ px_treemap (tree_data c) "Flight count by airline to destination state";
    px_pie (div_data c) "% of flights by reporting airline";
    px_choropleth (map_data c) (0%Q, Qmax_list (map snd (map_data c)))
                  "Number of flights from origin state";
    px_bar (bar_data c) "Monthly Flight Cancellation";
    px_line (line_data c) "AirTime"
            "Average monthly flight time (minutes) by airline" ].

Definition delay_figures (c : Choice2) : list Figure :=
  [ px_line (avg_car c) "CarrierDelay"
            "Average carrier delay time (minutes) by airline";
    px_line (avg_weather c) "WeatherDelay"
            "Average weather delay time (minutes) by airline";
    px_line (avg_NAS c) "NASDelay"
            "Average NAS delay time (minutes) by airline";
    px_line (avg_sec c) "SecurityDelay"
            "Average security delay time (minutes) by airline";
    px_line (avg_late c) "LateAircraftDelay"
            "Average late aircraft delay time (minutes) by airline" ].

(** [get_graph(chart, year, children1, children2, c3, c4, c5)]; the five
    [State] arguments are never read. *)
Definition get_graph (chart : option string) (year : option Z) : Py (list Figure) :=
  data <- read_airline_data ;;
  y <- py_int year ;;
  note (step_filter_year y) ;;
  let df := filter_year data y in
  if is_OPT1 chart then
    c <- call_compute_data_choice_1 df ;;
    ret (performance_figures c)
  else
    c <- call_compute_data_choice_2 df ;;
    ret (delay_figures c).

(** Does a run enter an aggregator? *)
Definition is_aggregation (s : Step) : bool :=
  match s with
  | step_filter_year _ => false
  | _ => true
  end.

Definition aggregation_ran {A : Type} (o : Outcome A) : bool :=
  existsb is_aggregation (steps o).

(** ** Vocabulary for stating what a group-by returns *)

Section GroupSpec.
Context {K : Type} `{Cmp K}.

(** Row [r] has all its key columns present. *)
Definition has_key (key : FlightRecord -> option K) (r : FlightRecord) : bool :=
  match key r with Some _ => true | None => false end.

(** Row [r] belongs to the group of [k]. *)
Definition key_is (key : FlightRecord -> option K) (k : K) (r : FlightRecord)
  : bool :=
  match key r with
  | Some k' => match cmp k k' with Eq => true | _ => false end
  | None => false
  end.

(** The rows filed under [k], none when [k] has no group. *)
Fixpoint group_of (k : K) (gs : list (K * Table)) : Table :=
  match gs with
  | [] => []
  | (k', g) :: gs' =>
      match cmp k k' with Eq => g | _ => group_of k gs' end
  end.

Definition key_lt (a b : K * Table) : Prop := cmp (fst a) (fst b) = Lt.

(** Total of column [col] over all groups. *)
Definition mass (col : FlightRecord -> option Q) (gs : list (K * Table)) : Q :=
  Qsum (map (fun kg => Series_sum (map col (snd kg))) gs).
End GroupSpec.

(** ** The five delay causes *)

Inductive DelayCause : Type :=
  Carrier | Weather | NAS | Security | LateAircraft.

(** The column of a cause and the table [compute_data_choice_2] returns for
    it. *)
Definition delay_col (c : DelayCause) : FlightRecord -> option Q :=
  match c with
  | Carrier => CarrierDelay
  | Weather => WeatherDelay
  | NAS => NASDelay
  | Security => SecurityDelay
  | LateAircraft => LateAircraftDelay
  end.

Definition delay_table (c : DelayCause) (t : Choice2)
  : list (Z * string * option Q) :=
  match c with
  | Carrier => avg_car t
  | Weather => avg_weather t
  | NAS => avg_NAS t
  | Security => avg_sec t
  | LateAircraft => avg_late t
  end.

(** The five tables of [compute_data_choice_2], in the order returned. *)
Definition delay_tables (t : Choice2) : list (list (Z * string * option Q)) :=
  [avg_car t; avg_weather t; avg_NAS t; avg_sec t; avg_late t].

(** ** Row tests *)

Definition is_present {A : Type} (x : option A) : bool :=
  match x with Some _ => true | None => false end.

Definition value_of (x : option Q) : Q :=
  match x with Some v => v | None => 0%Q end.

(** The field holds the integer [v]. *)
Definition holds_int (x : option Z) (v : Z) : bool :=
  match x with Some w => w =? v | None => false end.

(** The field holds the text [v]. *)
Definition holds_str (x : option string) (v : string) : bool :=
  match x with Some w => String.eqb w v | None => false end.

(** Row [r] is in month [m] and flown by airline [a]. *)
Definition in_month_airline (m : Z) (a : string) (r : FlightRecord) : bool :=
  holds_int (Month r) m && holds_str (Reporting_Airline r) a.

(** Row [r] is in month [m] and carries cancellation code [c]. *)
Definition in_month_code (m : Z) (c : string) (r : FlightRecord) : bool :=
  holds_int (Month r) m && holds_str (CancellationCode r) c.

(** Row [r] departs from state [s]. *)
Definition in_origin (s : string) (r : FlightRecord) : bool :=
  holds_str (OriginState r) s.

(** Row [r] lands in state [d] and is flown by airline [a]. *)
Definition in_dest_airline (d a : string) (r : FlightRecord) : bool :=
  holds_str (DestState r) d && holds_str (Reporting_Airline r) a.

(** Row [r] has a Year and the year dropdown offers it. *)
Definition year_offered (r : FlightRecord) : bool :=
  match Year r with
  | Some y => existsb (Z.eqb y) year_list
  | None => false
  end.

(** The field holds a number and that number is zero. *)
Definition landings_zero (r : FlightRecord) : Prop :=
  exists v : Q, DivAirportLandings r = Some v /\ (v == 0)%Q.

Definition Year_eq_dec (x y : option Z) : {x = y} + {x <> y}.
Proof. decide equality. apply Z.eq_dec. Defined.

(** The null-aware mean of column [col] over the rows passing [p]. *)
Definition mean_over (col : FlightRecord -> option Q)
           (p : FlightRecord -> bool) (df : Table) : option Q :=
  match filter (fun r => p r && is_present (col r)) df with
  | [] => None
  | rows => Some (Qsum (map (fun r => value_of (col r)) rows)
                  / inject_Z (Z.of_nat (List.length rows)))%Q
  end.

(** ** Row order *)

(** [subseq s l]: [s] is [l] with some rows left out, the others untouched
    and in their order. *)
Inductive subseq {A : Type} : list A -> list A -> Prop :=
| subseq_nil : subseq [] []
| subseq_skip x s l : subseq s l -> subseq s (x :: l)
| subseq_keep x s l : subseq s l -> subseq (x :: s) (x :: l).

(** ** Comparing aggregates *)

(** The key columns of an aggregate come in strictly ascending order. *)
Definition keys_ascending {K V : Type} `{Cmp K} (t : list (K * V)) : Prop :=
  StronglySorted (fun a b => cmp a b = Lt) (map fst t).

(** Two aggregates have the same keys in the same order and, key by key,
    equal numbers. *)
Definition same_sums {K : Type} (t t' : list (K * Q)) : Prop :=
  Forall2 (fun x y => fst x = fst y /\ (snd x == snd y)%Q) t t'.

(** A missing mean matches a missing mean, a number an equal number. *)
Definition opt_Qeq (x y : option Q) : Prop :=
  match x, y with
  | Some a, Some b => (a == b)%Q
  | None, None => True
  | _, _ => False
  end.

Definition same_means {K : Type} (t t' : list (K * option Q)) : Prop :=
  Forall2 (fun x y => fst x = fst y /\ opt_Qeq (snd x) (snd y)) t t'.

(** ** The two dropdowns *)

(** [options] of the report-type dropdown: label and value. *)
Definition report_type_options : list (string * string) :=
  [ ("Yearly Airline Performance Report", "OPT1");
    ("Yearly Airline Delay Report", "OPT2") ]%string.

(** [options=[{"label": i, "value": i} for i in year_list]] *)
Definition year_options : list (Z * Z) := map (fun i => (i, i)) year_list.

(** ** Sample rows *)

Module Sample.

(** A flight of January 2010 that was neither cancelled nor diverted. *)
Definition completed_2010 : FlightRecord :=
  mkFlight (Some 2010) (Some 1) (Some "AA"%string) None (Some 95%Q)
           (Some "TX"%string) (Some "CA"%string) (Some 1%Q) (Some 0%Q)
           (Some 10%Q) None None None None.

(** The same month and airline, no delay cause reported. *)
Definition undelayed_2010 : FlightRecord :=
  mkFlight (Some 2010) (Some 1) (Some "AA"%string) None (Some 80%Q)
           (Some "TX"%string) (Some "NY"%string) (Some 1%Q) (Some 0%Q)
           None None None None None.

(** A cancelled flight of 2010. *)
Definition cancelled_2010 : FlightRecord :=
  mkFlight (Some 2010) (Some 2) (Some "DL"%string) (Some "B"%string) None
           (Some "GA"%string) (Some "FL"%string) (Some 1%Q) (Some 0%Q)
           None None None None None.

(** A flight of 2020 whose diversion and delay fields were left empty. *)
Definition blank_2020 : FlightRecord :=
  mkFlight (Some 2020) (Some 1) (Some "AA"%string) None (Some 60%Q)
           (Some "TX"%string) (Some "CA"%string) (Some 1%Q) None
           None None None None None.

(** A diverted flight of 2009. *)
Definition diverted_2009 : FlightRecord :=
  mkFlight (Some 2009) (Some 7) (Some "UA"%string) None (Some 130%Q)
           (Some "IL"%string) (Some "CO"%string) (Some 1%Q) (Some 1%Q)
           (Some 4%Q) (Some 30%Q) None None None.

(** A flight of 2010 recorded without airline and without states. *)
Definition anonymous_2010 : FlightRecord :=
  mkFlight (Some 2010) (Some 3) None None (Some 45%Q)
           None None (Some 1%Q) (Some 0%Q)
           (Some 7%Q) None None None None.

(** A flight of 2004, a year the dropdown does not offer. *)
Definition early_2004 : FlightRecord :=
  mkFlight (Some 2004) (Some 5) (Some "AA"%string) None (Some 70%Q)
           (Some "TX"%string) (Some "CA"%string) (Some 1%Q) (Some 0%Q)
           None None None None None.

Definition table : Table :=
  [diverted_2009; completed_2010; cancelled_2010; undelayed_2010; blank_2020].

End Sample.
(** * Properties *)

(** ** The key orders are total orders *)

Lemma string_compare_refl (s : string) : String.compare s s = Eq.
Proof.
  induction s as [|a s IH]; simpl; [reflexivity|].
  unfold Ascii.compare. now rewrite N.compare_refl.
Qed.

Lemma string_compare_trans (a b c : string) :
  String.compare a b = Lt -> String.compare b c = Lt -> String.compare a c = Lt.
Proof.
  revert b c.
  induction a as [|x a IH]; intros [|y b] [|z c]; simpl; try congruence.
  unfold Ascii.compare.
  destruct (N.compare_spec (N_of_ascii x) (N_of_ascii y)) as [Exy|Lxy|Gxy];
    try discriminate;
    destruct (N.compare_spec (N_of_ascii y) (N_of_ascii z)) as [Eyz|Lyz|Gyz];
    try discriminate; intros Hab Hbc.
  - rewrite Exy, Eyz, N.compare_refl. eauto.
  - rewrite Exy. now apply N.compare_lt_iff in Lyz as ->.
  - rewrite <- Eyz. now apply N.compare_lt_iff in Lxy as ->.
  - assert (L : (N_of_ascii x < N_of_ascii z)%N) by lia.
    now apply N.compare_lt_iff in L as ->.
Qed.

#[export] Instance CmpLaws_Z : CmpLaws Z.
Proof.
  split; unfold cmp, Cmp_Z.
  - intros a b. apply Z.compare_eq_iff.
  - intros a b. apply Z.compare_antisym.
  - intros a b c. rewrite !Z.compare_lt_iff. lia.
Qed.

#[export] Instance CmpLaws_string : CmpLaws string.
Proof.
  split; unfold cmp, Cmp_string.
  - intros a b. split.
    + apply String.compare_eq_iff.
    + intros ->. apply string_compare_refl.
  - apply String.compare_antisym.
  - apply string_compare_trans.
Qed.

#[export] Instance CmpLaws_prod {A B : Type} `{CmpLaws A} `{CmpLaws B} :
  CmpLaws (A * B).
Proof.
  split; unfold cmp, Cmp_prod.
  - intros [a1 b1] [a2 b2]; simpl. split.
    + destruct (cmp a1 a2) eqn:E; try discriminate.
      intros Eb. apply cmp_eq in E, Eb. congruence.
    + intros [= -> ->].
      now rewrite (proj2 (cmp_eq a2 a2) eq_refl), (proj2 (cmp_eq b2 b2) eq_refl).
  - intros [a1 b1] [a2 b2]; simpl.
    rewrite (cmp_antisym a1 a2).
    destruct (cmp a2 a1); simpl; auto using cmp_antisym.
  - intros [a1 b1] [a2 b2] [a3 b3]; simpl.
    destruct (cmp a1 a2) eqn:E12; try discriminate;
      destruct (cmp a2 a3) eqn:E23; try discriminate; intros H12 H23.
    + apply cmp_eq in E12, E23. subst.
      rewrite (proj2 (cmp_eq a3 a3) eq_refl). eauto using cmp_trans.
    + apply cmp_eq in E12. subst. now rewrite E23.
    + apply cmp_eq in E23. subst. now rewrite E12.
    + now rewrite (cmp_trans _ _ _ E12 E23).
Qed.

Lemma cmp_refl {K : Type} `{CmpLaws K} (k : K) : cmp k k = Eq.
Proof. now apply cmp_eq. Qed.

Lemma cmp_Gt_Lt {K : Type} `{CmpLaws K} (a b : K) : cmp a b = Gt -> cmp b a = Lt.
Proof. intros E. rewrite cmp_antisym, E. reflexivity. Qed.

(** ** Sums over [Q] *)

Lemma Qsum_app (l1 l2 : list Q) : (Qsum (l1 ++ l2) == Qsum l1 + Qsum l2)%Q.
Proof.
  induction l1 as [|x l1 IH]; simpl.
  - now rewrite Qplus_0_l.
  - rewrite IH. apply Qplus_assoc.
Qed.

Lemma Qsum_cons (x : Q) (l : list Q) : Qsum (x :: l) = (x + Qsum l)%Q.
Proof. reflexivity. Qed.

Lemma dropna_app (l1 l2 : list (option Q)) :
  dropna (l1 ++ l2) = dropna l1 ++ dropna l2.
Proof.
  induction l1 as [|[v|] l1 IH]; simpl; congruence.
Qed.

Lemma Series_sum_snoc (l : list (option Q)) (x : option Q) :
  (Series_sum (l ++ [x]) == Series_sum l + value_of x)%Q.
Proof.
  unfold Series_sum. rewrite dropna_app, Qsum_app.
  destruct x; simpl; ring.
Qed.

Lemma Series_sum_cons (x : option Q) (l : list (option Q)) :
  (Series_sum (x :: l) == value_of x + Series_sum l)%Q.
Proof. unfold Series_sum. destruct x; simpl; ring. Qed.

(** ** Grouping *)

Section GroupByFacts.
Context {K : Type} `{CmpLaws K}.
Variable key : FlightRecord -> option K.

(** *** Mass *)

Lemma add_to_group_mass col k r gs :
  (mass col (add_to_group k r gs) == value_of (col r) + mass col gs)%Q.
Proof.
  unfold mass.
  induction gs as [|[k' g] gs IH]; cbn [add_to_group].
  - cbn [map fst snd]. rewrite !Qsum_cons, Series_sum_cons.
    change (Series_sum []) with 0%Q. ring.
  - destruct (cmp k k'); cbn [map fst snd]; rewrite !Qsum_cons.
    + rewrite map_app. cbn [map]. rewrite Series_sum_snoc. ring.
    + rewrite Series_sum_cons. change (Series_sum []) with 0%Q. ring.
    + rewrite IH. ring.
Qed.

Lemma fold_add_row_mass col df gs :
  (mass col (fold_left (add_row key) df gs)
   == mass col gs + Series_sum (map col (filter (has_key key) df)))%Q.
Proof.
  revert gs.
  induction df as [|r df IH]; intros gs; cbn [fold_left filter].
  - change (Series_sum (map col [])) with 0%Q. ring.
  - rewrite IH. unfold add_row, has_key.
    destruct (key r) as [k|]; cbn [map].
    + rewrite add_to_group_mass, Series_sum_cons. ring.
    + ring.
Qed.

Lemma groupby_sum_mass col df :
  (Qsum (map snd (groupby_sum key col df))
   == Series_sum (map col (filter (has_key key) df)))%Q.
Proof.
  unfold groupby_sum, groupby. rewrite map_map. simpl.
  change (mass col (fold_left (add_row key) df [])
          == Series_sum (map col (filter (has_key key) df)))%Q.
  rewrite fold_add_row_mass. change (mass col []) with 0%Q. ring.
Qed.

(** *** Groups are sorted by key *)

Lemma add_to_group_lower k0 r gs (x : K * Table) :
  key_lt x (k0, [r]) -> Forall (key_lt x) gs ->
  Forall (key_lt x) (add_to_group k0 r gs).
Proof.
  intros Hx.
  induction gs as [|[k' g] gs IH]; intros HF; simpl.
  - constructor; auto.
  - inversion HF as [|? ? Hk' HF']; subst.
    destruct (cmp k0 k'); constructor; auto.
Qed.

Lemma add_to_group_sorted k0 r gs :
  StronglySorted key_lt gs -> StronglySorted key_lt (add_to_group k0 r gs).
Proof.
  induction gs as [|[k' g] gs IH]; intros HS; simpl.
  - repeat constructor.
  - inversion HS as [|? ? HS' HF]; subst.
    destruct (cmp k0 k') eqn:E.
    + constructor; auto.
    + constructor; auto. constructor; [exact E|].
      eapply Forall_impl; [|exact HF].
      intros [k2 g2]; unfold key_lt; simpl. eauto using cmp_trans.
    + constructor; auto.
      apply add_to_group_lower; auto.
      unfold key_lt; simpl. now apply cmp_Gt_Lt.
Qed.

Lemma fold_add_row_sorted df gs :
  StronglySorted key_lt gs ->
  StronglySorted key_lt (fold_left (add_row key) df gs).
Proof.
  revert gs.
  induction df as [|r df IH]; intros gs HS; simpl; auto.
  apply IH. unfold add_row.
  destruct (key r); auto using add_to_group_sorted.
Qed.

Lemma groupby_sorted df : StronglySorted key_lt (groupby key df).
Proof. apply fold_add_row_sorted. constructor. Qed.

(** *** A group holds exactly the rows of its key, in table order *)

Lemma group_of_above k gs :
  Forall (fun x => cmp k (fst x) = Lt) gs -> group_of k gs = [].
Proof.
  induction 1 as [|[k' g] gs Hk _ IH]; simpl in *; auto.
  now rewrite Hk.
Qed.

Lemma group_of_add k k0 r gs :
  StronglySorted key_lt gs ->
  group_of k (add_to_group k0 r gs)
  = group_of k gs ++ match cmp k k0 with Eq => [r] | _ => [] end.
Proof.
  induction gs as [|[k' g] gs IH]; intros HS; simpl.
  - destruct (cmp k k0); reflexivity.
  - inversion HS as [|? ? HS' HF]; subst.
    destruct (cmp k0 k') eqn:E0; simpl.
    + apply cmp_eq in E0. subst k'.
      destruct (cmp k k0); rewrite ?app_nil_r; reflexivity.
    + destruct (cmp k k0) eqn:Ek; rewrite ?app_nil_r; try reflexivity.
      apply cmp_eq in Ek. subst k0. rewrite E0.
      rewrite group_of_above; auto.
      eapply Forall_impl; [|exact HF].
      intros [k2 g2]; unfold key_lt; simpl. eauto using cmp_trans.
    + destruct (cmp k k') eqn:Ek; auto.
      apply cmp_eq in Ek. subst k'.
      rewrite (cmp_Gt_Lt _ _ E0). now rewrite app_nil_r.
Qed.

Lemma fold_add_row_group_of k df gs :
  StronglySorted key_lt gs ->
  group_of k (fold_left (add_row key) df gs)
  = group_of k gs ++ filter (key_is key k) df.
Proof.
  revert gs.
  induction df as [|r df IH]; intros gs HS; simpl.
  - symmetry. apply app_nil_r.
  - rewrite IH.
    + unfold add_row, key_is at 2.
      destruct (key r) as [k0|]; auto.
      rewrite group_of_add by assumption. rewrite <- app_assoc.
      destruct (cmp k k0); reflexivity.
    + unfold add_row. destruct (key r); auto using add_to_group_sorted.
Qed.

Lemma group_of_groupby k df :
  group_of k (groupby key df) = filter (key_is key k) df.
Proof.
  unfold groupby. rewrite fold_add_row_group_of by constructor. reflexivity.
Qed.

Lemma group_of_In k g gs :
  StronglySorted key_lt gs -> In (k, g) gs -> group_of k gs = g.
Proof.
  induction gs as [|[k' g'] gs IH]; intros HS HI; simpl; [contradiction|].
  inversion HS as [|? ? HS' HF]; subst.
  destruct HI as [[= -> ->]|HI].
  - now rewrite cmp_refl.
  - destruct (cmp k k') eqn:E; auto.
    apply cmp_eq in E. subst k'.
    rewrite Forall_forall in HF. specialize (HF _ HI).
    unfold key_lt in HF; simpl in HF. rewrite cmp_refl in HF. discriminate.
Qed.

Lemma In_group_of k gs : group_of k gs <> [] -> In (k, group_of k gs) gs.
Proof.
  induction gs as [|[k' g'] gs IH]; simpl; [congruence|].
  destruct (cmp k k') eqn:E; auto.
  apply cmp_eq in E. subst k'. auto.
Qed.

(** *** No group is empty *)

Lemma add_to_group_nonempty k0 r gs :
  Forall (fun x => snd x <> []) gs ->
  Forall (fun x => snd x <> []) (add_to_group k0 r gs).
Proof.
  induction 1 as [|[k' g] gs Hg HF IH]; simpl.
  - repeat constructor. discriminate.
  - destruct (cmp k0 k'); constructor; simpl in *; auto.
    + intros E. now apply app_eq_nil in E as [_ ?].
    + discriminate.
Qed.

Lemma fold_add_row_nonempty df gs :
  Forall (fun x => snd x <> []) gs ->
  Forall (fun x => snd x <> []) (fold_left (add_row key) df gs).
Proof.
  revert gs.
  induction df as [|r df IH]; intros gs HF; simpl; auto.
  apply IH. unfold add_row.
  destruct (key r); auto using add_to_group_nonempty.
Qed.

(** The groups of [df.groupby(keys)]: one per key that occurs, holding the
    rows of that key. *)
Lemma groupby_In k g df :
  In (k, g) (groupby key df) <-> g = filter (key_is key k) df /\ g <> [].
Proof.
  split.
  - intros HI. split.
    + rewrite <- group_of_groupby. symmetry.
      apply group_of_In; auto using groupby_sorted.
    + pose proof (fold_add_row_nonempty df [] (Forall_nil _)) as HF.
      rewrite Forall_forall in HF. exact (HF _ HI).
  - intros [-> Hne]. rewrite <- group_of_groupby in *.
    now apply In_group_of.
Qed.

Lemma sorted_keys_NoDup gs :
  StronglySorted key_lt gs -> NoDup (map fst gs).
Proof.
  induction 1 as [|[k g] gs HS IH HF]; simpl; constructor; auto.
  intros HI. apply in_map_iff in HI as [[k' g'] [E HI]]. simpl in E. subst k'.
  rewrite Forall_forall in HF. specialize (HF _ HI).
  unfold key_lt in HF; simpl in HF. rewrite cmp_refl in HF. discriminate.
Qed.

Lemma groupby_keys_NoDup df : NoDup (map fst (groupby key df)).
Proof. apply sorted_keys_NoDup, groupby_sorted. Qed.

(** *** Selecting a group by a test on the rows *)

Lemma key_is_true (k : K) (r : FlightRecord) :
  key_is key k r = true <-> key r = Some k.
Proof.
  unfold key_is. destruct (key r) as [k'|]; [|split; discriminate].
  destruct (cmp k k') eqn:E.
  - apply cmp_eq in E. subst. tauto.
  - split; [discriminate|]. intros [= ->]. rewrite cmp_refl in E. discriminate.
  - split; [discriminate|]. intros [= ->]. rewrite cmp_refl in E. discriminate.
Qed.

(** A test that singles out the rows of key [k] selects the group of [k]. *)
Lemma filter_key_is (k : K) (p : FlightRecord -> bool) (df : Table) :
  (forall r, p r = true <-> key r = Some k) ->
  filter (key_is key k) df = filter p df.
Proof.
  intros Hp. apply filter_ext. intros r. apply eq_true_iff_eq.
  now rewrite key_is_true, Hp.
Qed.

(** A key has a group exactly when some row carries it. *)
Lemma groupby_key_In k df :
  In k (map fst (groupby key df)) <-> exists r, In r df /\ key r = Some k.
Proof.
  rewrite in_map_iff. split.
  - intros [[k' g] [E HI]]. simpl in E. subst k'.
    apply groupby_In in HI as [-> Hne].
    destruct (filter (key_is key k) df) as [|r f] eqn:Ef; [congruence|].
    assert (Hr : In r (filter (key_is key k) df)) by (rewrite Ef; now left).
    apply filter_In in Hr as [Hr Hk].
    exists r. split; auto. now apply key_is_true.
  - intros [r [Hr Hk]]. exists (k, filter (key_is key k) df). split; auto.
    apply groupby_In. split; auto. intros Ef.
    assert (Hin : In r (filter (key_is key k) df)).
    { apply filter_In. split; auto. now apply key_is_true. }
    rewrite Ef in Hin. contradiction.
Qed.

Lemma groupby_nil_iff df :
  groupby key df = [] <-> forall r, In r df -> key r = None.
Proof.
  split.
  - intros E r Hr. destruct (key r) as [k|] eqn:Hk; auto.
    assert (HI : In k (map fst (groupby key df))).
    { apply groupby_key_In. eauto. }
    rewrite E in HI. contradiction.
  - intros Hnone. destruct (groupby key df) as [|[k g] gs] eqn:E; auto.
    assert (HI : In k (map fst (groupby key df))).
    { rewrite E. simpl. auto. }
    apply groupby_key_In in HI as [r [Hr Hk]].
    rewrite (Hnone r Hr) in Hk. discriminate.
Qed.

End GroupByFacts.

(** ** Filters keep rows, order and multiplicity *)

Lemma subseq_refl {A : Type} (l : list A) : subseq l l.
Proof. induction l; [apply subseq_nil | now apply subseq_keep]. Qed.

Lemma filter_subseq {A : Type} (p : A -> bool) (l : list A) :
  subseq (filter p l) l.
Proof.
  induction l as [|x l IH]; simpl; [apply subseq_nil|].
  destruct (p x); [now apply subseq_keep | now apply subseq_skip].
Qed.

(** Nothing that passes the test is left out. *)
Lemma filter_subseq_max {A : Type} (p : A -> bool) (s l : list A) :
  subseq s l -> Forall (fun x => p x = true) s -> subseq s (filter p l).
Proof.
  induction 1 as [|x s l _ IH|x s l _ IH]; intros HF; simpl.
  - apply subseq_nil.
  - destruct (p x); [apply subseq_skip|]; auto.
  - inversion HF as [|? ? Hx HF']; subst. rewrite Hx. apply subseq_keep; auto.
Qed.

Lemma filter_nonempty {A : Type} (p : A -> bool) (l : list A) :
  filter p l <> [] <-> exists x, In x l /\ p x = true.
Proof.
  split.
  - destruct (filter p l) as [|x f] eqn:E; [congruence|]. intros _.
    exists x. apply filter_In. rewrite E. now left.
  - intros [x Hx] E. apply filter_In in Hx. rewrite E in Hx. contradiction.
Qed.

(** ** Means per group *)

Section GroupByMean.
Context {K : Type} `{CmpLaws K}.
Variable key : FlightRecord -> option K.
Variable col : FlightRecord -> option Q.

Lemma groupby_mean_In k v df :
  In (k, v) (groupby_mean key col df)
  <-> v = mean (map col (filter (key_is key k) df))
      /\ filter (key_is key k) df <> [].
Proof.
  unfold groupby_mean. rewrite in_map_iff. split.
  - intros [[k' g] [[= <- <-] HI]]. simpl.
    apply groupby_In in HI as [-> Hne]. auto.
  - intros [-> Hne]. exists (k, filter (key_is key k) df). split; auto.
    now apply groupby_In.
Qed.

Lemma groupby_mean_keys df :
  map fst (groupby_mean key col df) = map fst (groupby key df).
Proof. unfold groupby_mean. rewrite map_map. reflexivity. Qed.

Lemma groupby_mean_NoDup df : NoDup (map fst (groupby_mean key col df)).
Proof. rewrite groupby_mean_keys. apply groupby_keys_NoDup. Qed.

Lemma groupby_mean_nil_iff df :
  groupby_mean key col df = [] <-> forall r, In r df -> key r = None.
Proof.
  rewrite <- groupby_nil_iff. unfold groupby_mean.
  destruct (groupby key df); simpl; split; congruence.
Qed.
End GroupByMean.

Lemma dropna_present (col : FlightRecord -> option Q) (p : FlightRecord -> bool)
      (df : Table) :
  dropna (map col (filter p df))
  = map (fun r => value_of (col r))
        (filter (fun r => p r && is_present (col r)) df).
Proof.
  induction df as [|r df IH]; simpl; auto.
  destruct (p r); simpl; auto.
  destruct (col r) eqn:E; simpl; rewrite ?E; simpl; congruence.
Qed.

Lemma mean_None_iff (l : list (option Q)) :
  mean l = None <-> Forall (fun x => x = None) l.
Proof.
  unfold mean. induction l as [|[v|] l IH]; simpl.
  - split; auto.
  - split; [discriminate|]. intros HF. inversion HF. discriminate.
  - rewrite IH. split; intros HF.
    + constructor; auto.
    + now inversion HF.
Qed.

Lemma holds_int_true (x : option Z) (v : Z) :
  holds_int x v = true <-> x = Some v.
Proof.
  destruct x as [w|]; simpl; [|split; discriminate].
  rewrite Z.eqb_eq. split; congruence.
Qed.

Lemma holds_str_true (x : option string) (v : string) :
  holds_str x v = true <-> x = Some v.
Proof.
  destruct x as [w|]; simpl; [|split; discriminate].
  rewrite String.eqb_eq. split; congruence.
Qed.

Lemma key2_Some {A B : Type} (x : option A) (y : option B) (a : A) (b : B) :
  key2 x y = Some (a, b) <-> x = Some a /\ y = Some b.
Proof.
  destruct x, y; simpl; split; try discriminate; try (intros [? ?]; discriminate).
  - intros [= -> ->]. auto.
  - intros [[= ->] [= ->]]. reflexivity.
Qed.

Lemma key2_None {A B : Type} (x : option A) (y : option B) :
  key2 x y = None <-> x = None \/ y = None.
Proof.
  destruct x, y; simpl; split; auto; try discriminate.
  intros [?|?]; discriminate.
Qed.

Lemma in_month_airline_true (m : Z) (a : string) (r : FlightRecord) :
  in_month_airline m a r = true
  <-> Month r = Some m /\ Reporting_Airline r = Some a.
Proof.
  unfold in_month_airline.
  now rewrite andb_true_iff, holds_int_true, holds_str_true.
Qed.

Lemma in_month_airline_key (m : Z) (a : string) (r : FlightRecord) :
  in_month_airline m a r = true <-> key_Month_Airline r = Some (m, a).
Proof.
  rewrite in_month_airline_true. unfold key_Month_Airline.
  now rewrite key2_Some.
Qed.

Lemma filter_key_is_Month_Airline (m : Z) (a : string) (df : Table) :
  filter (key_is key_Month_Airline (m, a)) df = filter (in_month_airline m a) df.
Proof. apply filter_key_is. apply in_month_airline_key. Qed.

Lemma delay_table_eq (c : DelayCause) (df : Table) :
  delay_table c (compute_data_choice_2 df)
  = groupby_mean key_Month_Airline (delay_col c) df.
Proof. destruct c; reflexivity. Qed.

(** * The claims *)

(** ** C1: sum-based aggregates and total mass *)

(** C1, as stated, fails for MonthlyCancellation: a year-filtered table
    whose only flight was not cancelled (its CancellationCode is missing)
    carries one flight, and [bar_data] sums to zero. *)
Lemma bar_data_loses_uncancelled_flights :
  let df := filter_year [Sample.completed_2010] 2010 in
  df = [Sample.completed_2010]
  /\ bar_data (compute_data_choice_1 df) = []
  /\ ~ (Qsum (map snd (bar_data (compute_data_choice_1 df)))
        == Series_sum (map Flights df))%Q.
Proof.
  repeat split. vm_compute. discriminate.
Qed.

Lemma has_key2 {A B : Type} (x : option A) (y : option B) :
  is_present (key2 x y) = is_present x && is_present y.
Proof. destruct x, y; reflexivity. Qed.

(** C1 (amended): for every input table, in particular every year-filtered
    one, and with the numbers taken as exact rationals, each sum-based
    aggregate sums to the total of the Flights column over the input rows
    whose key columns are all present: Month and CancellationCode for
    [bar_data], OriginState for [map_data], DestState and Reporting_Airline
    for [tree_data].  A row that lacks a key column, such as a flight that
    was not cancelled, is dropped by the group-by and counted nowhere. *)
Theorem sum_aggregates_mass (df : Table) :
  let c := compute_data_choice_1 df in
  (Qsum (map snd (bar_data c))
   == Series_sum
        (map Flights
             (filter (fun r => is_present (Month r)
                               && is_present (CancellationCode r)) df)))%Q
  /\ (Qsum (map snd (map_data c))
      == Series_sum
           (map Flights (filter (fun r => is_present (OriginState r)) df)))%Q
  /\ (Qsum (map snd (tree_data c))
      == Series_sum
           (map Flights
                (filter (fun r => is_present (DestState r)
                                  && is_present (Reporting_Airline r)) df)))%Q.
Proof.
  simpl. repeat split; rewrite groupby_sum_mass;
    (erewrite filter_ext; [reflexivity|]); intros r; unfold has_key.
  - apply (has_key2 (Month r) (CancellationCode r)).
  - reflexivity.
  - apply (has_key2 (DestState r) (Reporting_Airline r)).
Qed.

(** ** C2: selectors left unset *)

(** C2, as stated, fails: with the report type unset and the year 2010
    selected, the callback filters the data and runs
    [compute_data_choice_2]. *)
Lemma unset_report_type_still_aggregates :
  let g := mkGlobals Sample.table in
  let o := get_graph None (Some 2010) g in
  aggregation_ran o = true
  /\ steps o = [ step_filter_year 2010;
                 step_compute_data_choice_2 (filter_year Sample.table 2010) ]
  /\ result o
     = inr (delay_figures (compute_data_choice_2 (filter_year Sample.table 2010))).
Proof. repeat split. Qed.

(** C2 (amended): when the year selector is unset, no filtering and no
    aggregator runs, because [int(year)] raises [TypeError] first and the
    callback ends with that error; when only the report type is unset and a
    year is selected, the aggregation does run: the data is filtered by the
    year and [compute_data_choice_2] is called. *)
Theorem get_graph_unset_selectors (g : Globals) :
  (forall chart : option string,
      let o := get_graph chart None g in
      result o = inl TypeError /\ steps o = [] /\ aggregation_ran o = false
      /\ globals_after o = g)
  /\ (forall y : Z,
         let df := filter_year (airline_data g) y in
         let o := get_graph None (Some y) g in
         aggregation_ran o = true
         /\ steps o = [step_filter_year y; step_compute_data_choice_2 df]
         /\ result o = inr (delay_figures (compute_data_choice_2 df))).
Proof.
  split.
  - intros chart. repeat split.
  - intros y. repeat split.
Qed.

(** ** C3: a missing DivAirportLandings *)

(** C3, as stated, fails: a row whose DivAirportLandings is missing is in
    [div_data]. *)
Lemma blank_landings_row_is_in_div_data :
  DivAirportLandings Sample.blank_2020 = None
  /\ div_data (compute_data_choice_1 [Sample.blank_2020]) = [Sample.blank_2020].
Proof. split; reflexivity. Qed.

(** C3 (amended): for every input table, a row whose DivAirportLandings
    field is missing is kept by the test [!= 0.0] and so appears in
    [div_data]: it is treated as diverted. *)
Theorem missing_landings_kept (df : Table) (r : FlightRecord) :
  In r df -> DivAirportLandings r = None ->
  In r (div_data (compute_data_choice_1 df)).
Proof.
  intros HI HN. simpl. apply filter_In. split; auto.
  now rewrite HN.
Qed.

Lemma missing_landings_kept_witness :
  In Sample.blank_2020 (div_data (compute_data_choice_1 Sample.table)).
Proof.
  apply (missing_landings_kept Sample.table Sample.blank_2020).
  - simpl. tauto.
  - reflexivity.
Defined.

(** ** C4: a delay column without any value *)

Lemma groupby_mean_Month_Airline_In col df m a v :
  In (m, a, v) (groupby_mean key_Month_Airline col df)
  <-> v = mean (map col (filter (in_month_airline m a) df))
      /\ filter (in_month_airline m a) df <> [].
Proof.
  rewrite groupby_mean_In. now rewrite filter_key_is_Month_Airline.
Qed.

(** A (Month, Reporting_Airline) pair has a group exactly when some row
    carries both. *)
Lemma month_airline_occurs (m : Z) (a : string) (df : Table) :
  filter (in_month_airline m a) df <> []
  <-> exists r, In r df /\ Month r = Some m /\ Reporting_Airline r = Some a.
Proof.
  rewrite filter_nonempty. split; intros [r [Hr Hk]]; exists r; split; auto;
    now apply in_month_airline_true.
Qed.

(** C4, as stated, fails: a table of 2020 whose single row has no
    WeatherDelay gives an [avg_weather] of one row, carrying a missing
    mean. *)
Lemma avg_weather_keeps_valueless_group :
  let df := filter_year [Sample.blank_2020] 2020 in
  df = [Sample.blank_2020]
  /\ Forall (fun r => WeatherDelay r = None) df
  /\ avg_weather (compute_data_choice_2 df) = [(1, "AA"%string, None)]
  /\ avg_weather (compute_data_choice_2 df) <> [].
Proof.
  repeat split.
  - repeat constructor.
  - discriminate.
Qed.

(** C4 (amended): for every input table in which no row has a WeatherDelay
    value, [avg_weather] has exactly one row for each (Month,
    Reporting_Airline) pair that some row of the table carries, and each of
    these rows holds a missing mean; [avg_weather] has zero rows only when
    no row of the table has both a Month and a Reporting_Airline, as in the
    empty table. *)
Theorem avg_weather_without_values (df : Table) :
  (forall r, In r df -> WeatherDelay r = None) ->
  let t := avg_weather (compute_data_choice_2 df) in
  (forall m a v,
      In (m, a, v) t
      <-> v = None
          /\ exists r, In r df /\ Month r = Some m
                       /\ Reporting_Airline r = Some a)
  /\ NoDup (map fst t)
  /\ (t = [] <-> forall r, In r df ->
                           Month r = None \/ Reporting_Airline r = None).
Proof.
  intros Hnone. simpl. split; [|split].
  - intros m a v.
    rewrite groupby_mean_Month_Airline_In, month_airline_occurs.
    assert (Hm : mean (map WeatherDelay (filter (in_month_airline m a) df)) = None).
    { apply mean_None_iff. apply Forall_forall. intros x Hx.
      apply in_map_iff in Hx as [r [<- Hr]]. apply filter_In in Hr as [Hr _].
      auto. }
    rewrite Hm. tauto.
  - apply groupby_mean_NoDup.
  - rewrite groupby_mean_nil_iff. unfold key_Month_Airline.
    split; intros Hk r Hr; apply key2_None; auto.
Qed.

Lemma avg_weather_without_values_witness :
  let t := avg_weather (compute_data_choice_2 [Sample.blank_2020; Sample.blank_2020]) in
  In (1, "AA"%string, None) t /\ NoDup (map fst t).
Proof.
  assert (Hnone : forall r, In r [Sample.blank_2020; Sample.blank_2020] ->
                            WeatherDelay r = None).
  { simpl. intros r [<-|[<-|[]]]; reflexivity. }
  destruct (avg_weather_without_values _ Hnone) as [Hrows [Hnd _]].
  split; [|exact Hnd].
  apply Hrows. split; [reflexivity|].
  exists Sample.blank_2020. simpl. auto.
Defined.

(** ** C5: the mean skips missing delays *)

Lemma mean_filter_present (col : FlightRecord -> option Q)
      (p : FlightRecord -> bool) (df : Table) :
  mean (map col (filter p (filter (fun r => is_present (col r)) df)))
  = mean (map col (filter p df)).
Proof.
  unfold mean. f_equal.
  replace (dropna (map col (filter p (filter (fun r => is_present (col r)) df))))
    with (dropna (map col (filter p df))); [reflexivity|].
  induction df as [|r df IH]; simpl; auto.
  destruct (col r) eqn:E; simpl.
  - destruct (p r); simpl; rewrite ?E; congruence.
  - destruct (p r); simpl; rewrite ?E; congruence.
Qed.

Lemma mean_Some_nonempty (col : FlightRecord -> option Q) (l : Table) (v : Q) :
  Some v = mean (map col l) -> l <> [].
Proof. intros Hv ->. discriminate. Qed.

Lemma mean_over_eq (col : FlightRecord -> option Q) (p : FlightRecord -> bool)
      (df : Table) :
  mean (map col (filter p df)) = mean_over col p df.
Proof.
  unfold mean, mean_over. rewrite dropna_present.
  destruct (filter _ df) as [|r l]; [reflexivity|].
  cbn [map].
  now rewrite <- (length_map (fun r => value_of (col r)) (r :: l)).
Qed.

(** C5: for each of the five delay causes and every table,
    [compute_data_choice_2] reports a row for a (Month, Reporting_Airline)
    pair exactly when some row of the table carries that pair, and the value
    of the row is the sum of the delay over the rows of the pair that have
    one, divided by the number of those rows (missing when there is none):
    a row without the delay enters neither the numerator nor the
    denominator.  Accordingly the reported means are those of the table with
    the rows lacking the delay removed. *)
Theorem delay_mean_skips_missing (c : DelayCause) (df : Table)
        (m : Z) (a : string) :
  let t := delay_table c (compute_data_choice_2 df) in
  let present :=
    filter (fun r => in_month_airline m a r && is_present (delay_col c r)) df in
  (forall v,
      In (m, a, v) t
      <-> (exists r, In r df /\ Month r = Some m
                     /\ Reporting_Airline r = Some a)
          /\ v = match present with
                 | [] => None
                 | _ => Some (Qsum (map (fun r => value_of (delay_col c r))
                                        present)
                              / inject_Z (Z.of_nat (List.length present)))%Q
                 end)
  /\ (forall v,
         In (m, a, Some v) t
         <-> In (m, a, Some v)
                (delay_table c
                   (compute_data_choice_2
                      (filter (fun r => is_present (delay_col c r)) df)))).
Proof.
  cbv zeta. rewrite !delay_table_eq. split.
  - intros v.
    rewrite groupby_mean_Month_Airline_In, month_airline_occurs, mean_over_eq.
    unfold mean_over.
    destruct (filter (fun r => in_month_airline m a r
                               && is_present (delay_col c r)) df);
      tauto.
  - intros v. rewrite !groupby_mean_Month_Airline_In, mean_filter_present.
    split; intros [Hv _]; (split; [exact Hv|]).
    + rewrite <- mean_filter_present in Hv. eauto using mean_Some_nonempty.
    + eauto using mean_Some_nonempty.
Qed.

(** Two flights of the same month and airline, one delayed by ten minutes and
    one without a CarrierDelay: the mean is ten, not five. *)
Lemma delay_mean_skips_missing_witness :
  let df := [Sample.completed_2010; Sample.undelayed_2010] in
  avg_car (compute_data_choice_2 df) = [(1, "AA"%string, Some (10 # 1))]
  /\ In (1, "AA"%string, Some (10 # 1)) (avg_car (compute_data_choice_2 df))
  /\ In (1, "AA"%string, Some (10 # 1))
        (avg_car (compute_data_choice_2 [Sample.completed_2010])).
Proof.
  destruct (delay_mean_skips_missing Carrier
              [Sample.completed_2010; Sample.undelayed_2010] 1 "AA")
    as [Hmean Hsame].
  split; [reflexivity|]. split.
  - apply (Hmean (Some (10 # 1))). split; [|reflexivity].
    exists Sample.completed_2010. simpl. auto.
  - apply (Hsame (10 # 1)). simpl. auto.
Defined.

(** ** C6: the year filter *)

Lemma eq_int_true (x : option Z) (y : Z) : eq_int x y = true <-> x = Some y.
Proof.
  destruct x as [v|]; simpl; [|split; discriminate].
  rewrite Z.eqb_eq. split; congruence.
Qed.

Lemma filter_year_count (t : Table) (Y : Z) :
  List.length (filter_year t Y) = count_occ Year_eq_dec (map Year t) (Some Y).
Proof.
  unfold filter_year.
  induction t as [|r t IH]; simpl; auto.
  destruct (Year_eq_dec (Year r) (Some Y)) as [E|E].
  - rewrite (proj2 (eq_int_true _ _) E). simpl. now rewrite IH.
  - destruct (eq_int (Year r) Y) eqn:Et; auto.
    apply eq_int_true in Et. contradiction.
Qed.

(** Filtering by each year of a duplicate-free list and chaining the results
    rearranges the rows whose year is in the list. *)
Lemma filter_year_concat (t : Table) (ys : list Z) :
  NoDup ys ->
  Permutation (List.concat (map (filter_year t) ys))
              (filter (fun r => match Year r with
                                | Some y => existsb (Z.eqb y) ys
                                | None => false
                                end) t).
Proof.
  unfold filter_year.
  induction 1 as [|y ys Hy Hnd IH]; simpl.
  - induction t as [|r t IHt]; simpl; auto. now destruct (Year r).
  - rewrite IH. clear IH.
    induction t as [|r t IHt]; simpl; auto.
    destruct (Year r) as [yr|]; simpl; auto.
    destruct (Z.eqb_spec yr y) as [E|E]; simpl.
    + replace (existsb (Z.eqb yr) ys) with false.
      * now constructor.
      * symmetry. apply not_true_is_false. intros Hex.
        apply existsb_exists in Hex as [y' [Hy' Ey']].
        apply Z.eqb_eq in Ey'. congruence.
    + destruct (existsb (Z.eqb yr) ys); simpl; auto.
      rewrite <- IHt. symmetry. apply Permutation_middle.
Qed.

Lemma year_list_NoDup : NoDup year_list.
Proof.
  unfold year_list. generalize (seq_NoDup 16 2005).
  induction 1 as [|n l Hn _ IH]; simpl; constructor; auto.
  rewrite in_map_iff. intros [n' [E Hn']].
  apply Nat2Z.inj in E. congruence.
Qed.

Lemma year_list_range (y : Z) : In y year_list <-> 2005 <= y <= 2020.
Proof.
  unfold year_list. rewrite in_map_iff. split.
  - intros [n [<- Hn]]. apply in_seq in Hn. lia.
  - intros Hy. exists (Z.to_nat y). split; [lia|]. apply in_seq. lia.
Qed.

Lemma year_offered_true (r : FlightRecord) :
  year_offered r = true <-> exists y, Year r = Some y /\ 2005 <= y <= 2020.
Proof.
  unfold year_offered. destruct (Year r) as [y|].
  - rewrite existsb_exists. split.
    + intros [y' [Hy' E]]. apply Z.eqb_eq in E. subst y'.
      exists y. split; auto. now apply year_list_range.
    + intros [y' [[= <-] Hr]]. exists y. split; [|apply Z.eqb_refl].
      now apply year_list_range.
  - split; [discriminate|]. intros [y [Hy _]]. discriminate.
Qed.

(** C6, as stated, fails in its last part: the one row of this table has
    Year 2004, no enumerated year returns it, and the union of the filter
    results is empty, not the data set. *)
Lemma year_outside_list_is_lost :
  let t := [Sample.early_2004] in
  List.concat (map (filter_year t) year_list) = []
  /\ ~ Permutation (List.concat (map (filter_year t) year_list)) t.
Proof.
  split; [reflexivity|].
  intros HP. apply Permutation_length in HP. discriminate HP.
Qed.

(** C6 (amended): for every table and every year [Y] of 2005-2020 the year
    filter returns exactly the rows of the table whose Year is [Y]: the same
    records, in their original order, none left out.  No row is returned for
    two different years, and the results for the enumerated years together
    are a rearrangement of exactly the rows whose Year lies in 2005-2020:
    they make up the whole table, partitioned by year, when every row has
    such a Year, and leave out every row that has not. *)
Theorem filter_year_partitions (t : Table) :
  (forall Y, In Y year_list ->
     (forall r, In r (filter_year t Y) <-> In r t /\ Year r = Some Y)
     /\ subseq (filter_year t Y) t
     /\ (forall s, subseq s t -> Forall (fun r => Year r = Some Y) s ->
                   subseq s (filter_year t Y))
     /\ List.length (filter_year t Y)
        = count_occ Year_eq_dec (map Year t) (Some Y))
  /\ (forall Y1 Y2 r,
         In r (filter_year t Y1) -> In r (filter_year t Y2) -> Y1 = Y2)
  /\ Permutation (List.concat (map (filter_year t) year_list))
                 (filter year_offered t)
  /\ (Forall (fun r => exists y, Year r = Some y /\ 2005 <= y <= 2020) t ->
      Permutation (List.concat (map (filter_year t) year_list)) t).
Proof.
  assert (Hcover : Permutation (List.concat (map (filter_year t) year_list))
                               (filter year_offered t)).
  { apply filter_year_concat, year_list_NoDup. }
  split; [|split; [|split]].
  - intros Y _. split; [|split; [|split]].
    + intros r. unfold filter_year. rewrite filter_In, eq_int_true. tauto.
    + apply filter_subseq.
    + intros s Hs HF. apply filter_subseq_max; auto.
      eapply Forall_impl; [|exact HF]. intros r. apply eq_int_true.
    + apply filter_year_count.
  - unfold filter_year. intros Y1 Y2 r H1 H2.
    apply filter_In in H1 as [_ H1], H2 as [_ H2].
    apply eq_int_true in H1, H2. congruence.
  - exact Hcover.
  - intros Hinv. rewrite Hcover.
    rewrite forallb_filter_id; auto.
    apply forallb_forall. intros r Hr.
    rewrite Forall_forall in Hinv. now apply year_offered_true, Hinv.
Qed.

Lemma sample_years_offered :
  Forall (fun r => exists y, Year r = Some y /\ 2005 <= y <= 2020) Sample.table.
Proof.
  unfold Sample.table.
  repeat apply Forall_cons; try apply Forall_nil;
    eexists; (split; [reflexivity|lia]).
Qed.

Lemma filter_year_partitions_witness :
  filter_year Sample.table 2010
  = [Sample.completed_2010; Sample.cancelled_2010; Sample.undelayed_2010]
  /\ subseq (filter_year Sample.table 2010) Sample.table
  /\ Permutation (List.concat (map (filter_year Sample.table) year_list))
                 Sample.table.
Proof.
  destruct (filter_year_partitions Sample.table) as [Hrows [_ [_ Hcover]]].
  split; [reflexivity|]. split.
  - apply (Hrows 2010). apply year_list_range. lia.
  - apply Hcover. exact sample_years_offered.
Defined.

(** ** C7: the diverted subset is a filter *)

Lemma ne_zero_true (r : FlightRecord) :
  ne_zero (DivAirportLandings r) = true <-> ~ landings_zero r.
Proof.
  unfold ne_zero, landings_zero.
  destruct (DivAirportLandings r) as [v|].
  - rewrite negb_true_iff, <- not_true_iff_false, Qeq_bool_iff. split.
    + intros Hv [v' [[= <-] Hz]]. auto.
    + intros Hn Hz. apply Hn. eauto.
  - split; auto. intros _ [v [Hv _]]. discriminate.
Qed.

(** C7: for every input table, [div_data] consists of exactly the input rows
    whose DivAirportLandings is not zero: each of them is an input record as
    it stands, they come in input order, and no such row is left out. *)
Theorem div_data_is_filter (df : Table) :
  let d := div_data (compute_data_choice_1 df) in
  (forall r, In r d <-> In r df /\ ~ landings_zero r)
  /\ subseq d df
  /\ (forall s, subseq s df -> Forall (fun r => ~ landings_zero r) s ->
                subseq s d).
Proof.
  simpl. split; [|split].
  - intros r. rewrite filter_In, ne_zero_true. tauto.
  - apply filter_subseq.
  - intros s Hs HF.
    apply (filter_subseq_max (fun r => ne_zero (DivAirportLandings r))); auto.
    eapply Forall_impl; [|exact HF]. intros r. apply ne_zero_true.
Qed.

Lemma div_data_is_filter_witness :
  div_data (compute_data_choice_1 Sample.table)
  = [Sample.diverted_2009; Sample.blank_2020]
  /\ subseq [Sample.diverted_2009]
            (div_data (compute_data_choice_1 Sample.table)).
Proof.
  split; [reflexivity|].
  apply (proj2 (proj2 (div_data_is_filter Sample.table))).
  - apply subseq_keep. do 4 apply subseq_skip. apply subseq_nil.
  - constructor; [|constructor].
    intros [v [Hv Hz]]. injection Hv as <-. discriminate Hz.
Defined.

(** ** C8: the two-row scenario *)

(** C8: for the table of two rows that both have Year 2010, Month 1,
    Reporting_Airline "AA" and CancellationCode "A", with Flights 1 and 2,
    whatever their other fields hold, [bar_data] is the single row
    (Month 1, CancellationCode "A", Flights 3). *)
Theorem bar_data_two_rows
        (at1 at2 : option Q) (os1 os2 ds1 ds2 : option string)
        (dl1 dl2 : option Q)
        (c1 c2 w1 w2 n1 n2 s1 s2 l1 l2 : option Q) :
  bar_data
    (compute_data_choice_1
       [ mkFlight (Some 2010) (Some 1) (Some "AA"%string) (Some "A"%string)
                  at1 os1 ds1 (Some 1%Q) dl1 c1 w1 n1 s1 l1;
         mkFlight (Some 2010) (Some 1) (Some "AA"%string) (Some "A"%string)
                  at2 os2 ds2 (Some 2%Q) dl2 c2 w2 n2 s2 l2 ])
  = [(1, "A"%string, 3%Q)].
Proof. reflexivity. Qed.

(** ** C10: which branch the callback takes *)

Lemma is_OPT1_true (chart : option string) :
  is_OPT1 chart = true <-> chart = Some "OPT1"%string.
Proof.
  destruct chart as [s|]; simpl.
  - rewrite String.eqb_eq. split; congruence.
  - split; discriminate.
Qed.

(** C10, as stated, fails: with the report type "OPT2" and no year
    selected, no branch is taken and nothing is rendered; the callback ends
    with the [TypeError] of [int(None)]. *)
Lemma no_year_no_delay_branch :
  let o := get_graph (Some "OPT2"%string) None (mkGlobals Sample.table) in
  Some "OPT2"%string <> Some "OPT1"%string
  /\ result o = inl TypeError
  /\ steps o = [].
Proof. repeat split. discriminate. Qed.

(** C10 (amended): for every callback invocation in which a year is selected
    and the report type is anything other than "OPT1" (unset, or any other
    value), [get_graph] filters by the year, runs [compute_data_choice_2] and
    returns the five delay charts; with "OPT1" it runs
    [compute_data_choice_1] and returns the performance charts, and
    [compute_data_choice_1] runs for no other report type; when no year is
    selected the callback raises [TypeError] before either branch. *)
Theorem get_graph_branches (chart : option string) (g : Globals) :
  (forall y : Z,
      let df := filter_year (airline_data g) y in
      (chart <> Some "OPT1"%string ->
       get_graph chart (Some y) g
       = mkOutcome g [step_filter_year y; step_compute_data_choice_2 df]
                   (inr (delay_figures (compute_data_choice_2 df))))
      /\ (chart = Some "OPT1"%string ->
          get_graph chart (Some y) g
          = mkOutcome g [step_filter_year y; step_compute_data_choice_1 df]
                      (inr (performance_figures (compute_data_choice_1 df)))))
  /\ (forall year df,
         In (step_compute_data_choice_1 df) (steps (get_graph chart year g)) ->
         chart = Some "OPT1"%string)
  /\ get_graph chart None g = mkOutcome g [] (inl TypeError).
Proof.
  split; [|split].
  - intros y. cbv zeta. split.
    + intros Hc. unfold get_graph.
      destruct (is_OPT1 chart) eqn:E; [|reflexivity].
      apply is_OPT1_true in E. contradiction.
    + intros ->. reflexivity.
  - intros [y|] df; unfold get_graph.
    + destruct (is_OPT1 chart) eqn:E.
      * intros _. now apply is_OPT1_true.
      * simpl. intros [Hs|[Hs|[]]]; discriminate.
    + simpl. contradiction.
  - reflexivity.
Qed.

Lemma get_graph_branches_witness :
  let g := mkGlobals Sample.table in
  let df := filter_year Sample.table 2010 in
  get_graph (Some "OPT2"%string) (Some 2010) g
  = mkOutcome g [step_filter_year 2010; step_compute_data_choice_2 df]
              (inr (delay_figures (compute_data_choice_2 df)))
  /\ get_graph (Some "OPT1"%string) (Some 2010) g
     = mkOutcome g [step_filter_year 2010; step_compute_data_choice_1 df]
                 (inr (performance_figures (compute_data_choice_1 df))).
Proof.
  split.
  - apply (proj1 (proj1 (get_graph_branches (Some "OPT2"%string)
                           (mkGlobals Sample.table)) 2010)).
    discriminate.
  - apply (proj2 (proj1 (get_graph_branches (Some "OPT1"%string)
                           (mkGlobals Sample.table)) 2010)).
    reflexivity.
Defined.


(** * Further properties of the aggregators *)

(** ** What a row of an aggregate holds *)

Section GroupRows.
Context {K : Type} `{CmpLaws K}.
Variable key : FlightRecord -> option K.

Lemma groupby_sum_In (col : FlightRecord -> option Q) k v df :
  In (k, v) (groupby_sum key col df)
  <-> v = Series_sum (map col (filter (key_is key k) df))
      /\ filter (key_is key k) df <> [].
Proof.
  unfold groupby_sum. rewrite in_map_iff. split.
  - intros [[k' g] [[= <- <-] HI]]. simpl.
    apply groupby_In in HI as [-> Hne]. auto.
  - intros [-> Hne]. exists (k, filter (key_is key k) df). split; auto.
    now apply groupby_In.
Qed.

(** Each row of a sum aggregate, computed from the table directly. *)
Lemma groupby_sum_rows (col : FlightRecord -> option Q) df :
  groupby_sum key col df
  = map (fun k => (k, Series_sum (map col (filter (key_is key k) df))))
        (map fst (groupby key df)).
Proof.
  unfold groupby_sum. rewrite map_map. apply map_ext_in.
  intros [k g] HI. simpl. apply groupby_In in HI as [-> _]. reflexivity.
Qed.

Lemma groupby_mean_rows (col : FlightRecord -> option Q) df :
  groupby_mean key col df
  = map (fun k => (k, mean (map col (filter (key_is key k) df))))
        (map fst (groupby key df)).
Proof.
  unfold groupby_mean. rewrite map_map. apply map_ext_in.
  intros [k g] HI. simpl. apply groupby_In in HI as [-> _]. reflexivity.
Qed.

Lemma sorted_keys_ascending gs :
  StronglySorted key_lt gs ->
  StronglySorted (fun a b : K => cmp a b = Lt) (map fst gs).
Proof.
  induction 1 as [|x gs HS IH HF]; simpl; constructor; auto.
  apply Forall_map. exact HF.
Qed.

End GroupRows.

Lemma in_month_code_true (m : Z) (c : string) (r : FlightRecord) :
  in_month_code m c r = true
  <-> Month r = Some m /\ CancellationCode r = Some c.
Proof.
  unfold in_month_code.
  now rewrite andb_true_iff, holds_int_true, holds_str_true.
Qed.

Lemma in_month_code_key (m : Z) (c : string) (r : FlightRecord) :
  in_month_code m c r = true
  <-> key_Month_CancellationCode r = Some (m, c).
Proof.
  rewrite in_month_code_true. unfold key_Month_CancellationCode.
  now rewrite key2_Some.
Qed.

Lemma in_origin_key (s : string) (r : FlightRecord) :
  in_origin s r = true <-> key_OriginState r = Some s.
Proof. apply holds_str_true. Qed.

Lemma in_dest_airline_true (d a : string) (r : FlightRecord) :
  in_dest_airline d a r = true
  <-> DestState r = Some d /\ Reporting_Airline r = Some a.
Proof.
  unfold in_dest_airline.
  now rewrite andb_true_iff, !holds_str_true.
Qed.

Lemma in_dest_airline_key (d a : string) (r : FlightRecord) :
  in_dest_airline d a r = true <-> key_DestState_Airline r = Some (d, a).
Proof.
  rewrite in_dest_airline_true. unfold key_DestState_Airline.
  now rewrite key2_Some.
Qed.

(** X1: [bar_data] has a row for month [m] and code [c] exactly when some
    input row has that month and that cancellation code, and the row then
    holds the sum of Flights over all such input rows; a pair that occurs in
    no row gets no row. *)
Theorem bar_data_rows (df : Table) (m : Z) (c : string) (v : Q) :
  In (m, c, v) (bar_data (compute_data_choice_1 df))
  <-> (exists r, In r df /\ Month r = Some m /\ CancellationCode r = Some c)
      /\ v = Series_sum (map Flights (filter (in_month_code m c) df)).
Proof.
  simpl. rewrite groupby_sum_In.
  rewrite (filter_key_is _ _ _ df (in_month_code_key m c)).
  rewrite filter_nonempty. split.
  - intros [-> [r [Hr Hk]]]. split; auto. exists r. split; auto.
    now apply in_month_code_true.
  - intros [[r [Hr Hk]] ->]. split; auto. exists r. split; auto.
    now apply in_month_code_true.
Qed.

Lemma bar_data_rows_witness :
  In (2, "B"%string, 1%Q) (bar_data (compute_data_choice_1 Sample.table)).
Proof.
  apply (proj2 (bar_data_rows Sample.table 2 "B" 1%Q)). split.
  - exists Sample.cancelled_2010. simpl. auto.
  - reflexivity.
Defined.

(** X2: [map_data] has a row for state [s] exactly when some input row
    departs from [s], and the row then holds the sum of Flights over all
    input rows departing from [s]. *)
Theorem map_data_rows (df : Table) (s : string) (v : Q) :
  In (s, v) (map_data (compute_data_choice_1 df))
  <-> (exists r, In r df /\ OriginState r = Some s)
      /\ v = Series_sum (map Flights (filter (in_origin s) df)).
Proof.
  simpl. rewrite groupby_sum_In.
  rewrite (filter_key_is _ _ _ df (in_origin_key s)).
  rewrite filter_nonempty. split.
  - intros [-> [r [Hr Hk]]]. split; auto. exists r. split; auto.
    now apply in_origin_key.
  - intros [[r [Hr Hs]] ->]. split; auto. exists r. split; auto.
    now apply in_origin_key.
Qed.

Lemma map_data_rows_witness :
  In ("TX"%string, 3%Q) (map_data (compute_data_choice_1 Sample.table)).
Proof.
  apply (proj2 (map_data_rows Sample.table "TX" 3%Q)). split.
  - exists Sample.completed_2010. simpl. auto.
  - reflexivity.
Defined.

(** X3: [tree_data] has a row for destination state [d] and airline [a]
    exactly when some input row lands in [d] with airline [a], and the row
    then holds the sum of Flights over all such input rows. *)
Theorem tree_data_rows (df : Table) (d a : string) (v : Q) :
  In (d, a, v) (tree_data (compute_data_choice_1 df))
  <-> (exists r, In r df /\ DestState r = Some d
                 /\ Reporting_Airline r = Some a)
      /\ v = Series_sum (map Flights (filter (in_dest_airline d a) df)).
Proof.
  simpl. rewrite groupby_sum_In.
  rewrite (filter_key_is _ _ _ df (in_dest_airline_key d a)).
  rewrite filter_nonempty. split.
  - intros [-> [r [Hr Hk]]]. split; auto. exists r. split; auto.
    now apply in_dest_airline_true.
  - intros [[r [Hr Hk]] ->]. split; auto. exists r. split; auto.
    now apply in_dest_airline_true.
Qed.

Lemma tree_data_rows_witness :
  In ("CA"%string, "AA"%string, 2%Q)
     (tree_data (compute_data_choice_1 Sample.table)).
Proof.
  apply (proj2 (tree_data_rows Sample.table "CA" "AA" 2%Q)). split.
  - exists Sample.completed_2010. simpl. auto.
  - reflexivity.
Defined.

(** X4: [line_data] has a row for month [m] and airline [a] exactly when
    some input row has that month and airline; the row holds the sum of
    AirTime over the rows of the pair that have an AirTime divided by the
    number of those rows, and a missing value when none of them has one. *)
Theorem line_data_rows (df : Table) (m : Z) (a : string) (v : option Q) :
  In (m, a, v) (line_data (compute_data_choice_1 df))
  <-> (exists r, In r df /\ Month r = Some m /\ Reporting_Airline r = Some a)
      /\ v = mean_over AirTime (in_month_airline m a) df.
Proof.
  simpl.
  rewrite groupby_mean_Month_Airline_In, mean_over_eq, month_airline_occurs.
  tauto.
Qed.

Lemma line_data_rows_witness :
  In (2, "DL"%string, None) (line_data (compute_data_choice_1 Sample.table)).
Proof.
  apply (proj2 (line_data_rows Sample.table 2 "DL" None)). split.
  - exists Sample.cancelled_2010. simpl. auto.
  - reflexivity.
Defined.
(** ** Keys of an aggregate: ascending, unique, present only when used *)

Section GroupKeys.
Context {K : Type} `{CmpLaws K}.
Variable key : FlightRecord -> option K.

Lemma groupby_sum_keys (col : FlightRecord -> option Q) df :
  map fst (groupby_sum key col df) = map fst (groupby key df).
Proof. unfold groupby_sum. rewrite map_map. reflexivity. Qed.

Lemma groupby_sum_ascending (col : FlightRecord -> option Q) df :
  keys_ascending (groupby_sum key col df).
Proof.
  unfold keys_ascending. rewrite groupby_sum_keys.
  apply sorted_keys_ascending, groupby_sorted.
Qed.

Lemma groupby_mean_ascending (col : FlightRecord -> option Q) df :
  keys_ascending (groupby_mean key col df).
Proof.
  unfold keys_ascending. rewrite groupby_mean_keys.
  apply sorted_keys_ascending, groupby_sorted.
Qed.

Lemma groupby_sum_NoDup (col : FlightRecord -> option Q) df :
  NoDup (map fst (groupby_sum key col df)).
Proof. rewrite groupby_sum_keys. apply groupby_keys_NoDup. Qed.

Lemma groupby_sum_nil_iff (col : FlightRecord -> option Q) df :
  groupby_sum key col df = [] <-> forall r, In r df -> key r = None.
Proof.
  rewrite <- groupby_nil_iff. unfold groupby_sum.
  destruct (groupby key df); simpl; split; congruence.
Qed.

(** Two ascending key lists with the same members are the same list. *)
Lemma ascending_ext (l l' : list K) :
  StronglySorted (fun a b => cmp a b = Lt) l ->
  StronglySorted (fun a b => cmp a b = Lt) l' ->
  (forall k, In k l <-> In k l') -> l = l'.
Proof.
  intros HS. revert l'.
  induction HS as [|a l HS IH Ha]; intros l' HS' Hmem.
  - destruct l' as [|b l']; auto.
    destruct (proj2 (Hmem b) (or_introl eq_refl)).
  - destruct HS' as [|b l' HS' Hb].
    + destruct (proj1 (Hmem a) (or_introl eq_refl)).
    + rewrite Forall_forall in Ha, Hb.
      assert (Eab : a = b).
      { destruct (proj1 (Hmem a) (or_introl eq_refl)) as [E|Hin]; auto.
        destruct (proj2 (Hmem b) (or_introl eq_refl)) as [E|Hin']; auto.
        pose proof (cmp_trans _ _ _ (Ha _ Hin') (Hb _ Hin)) as Hlt.
        rewrite cmp_refl in Hlt. discriminate. }
      subst b. f_equal. apply IH; auto.
      intros k. split; intros Hk.
      * destruct (proj1 (Hmem k) (or_intror Hk)) as [E|Hin]; auto.
        subst k. specialize (Ha _ Hk). rewrite cmp_refl in Ha. discriminate.
      * destruct (proj2 (Hmem k) (or_intror Hk)) as [E|Hin]; auto.
        subst k. specialize (Hb _ Hk). rewrite cmp_refl in Hb. discriminate.
Qed.

Lemma groupby_keys_Permutation df df' :
  Permutation df df' ->
  map fst (groupby key df) = map fst (groupby key df').
Proof.
  intros HP.
  apply ascending_ext; try (apply sorted_keys_ascending, groupby_sorted).
  intros k. rewrite !groupby_key_In.
  split; intros [r [Hr Hk]]; exists r; split; auto.
  - now apply (Permutation_in _ HP).
  - now apply (Permutation_in _ (Permutation_sym HP)).
Qed.

End GroupKeys.

(** X5: in every table either aggregator returns, the key columns come in
    strictly ascending order, so no key appears in two rows. *)
Theorem aggregate_keys_ascending (df : Table) :
  let c1 := compute_data_choice_1 df in
  let c2 := compute_data_choice_2 df in
  (keys_ascending (bar_data c1) /\ NoDup (map fst (bar_data c1)))
  /\ (keys_ascending (line_data c1) /\ NoDup (map fst (line_data c1)))
  /\ (keys_ascending (map_data c1) /\ NoDup (map fst (map_data c1)))
  /\ (keys_ascending (tree_data c1) /\ NoDup (map fst (tree_data c1)))
  /\ Forall (fun t => keys_ascending t /\ NoDup (map fst t)) (delay_tables c2).
Proof.
  cbv zeta. unfold delay_tables. simpl.
  repeat match goal with
         | |- _ /\ _ => split
         | |- Forall _ (_ :: _) => constructor
         | |- Forall _ [] => constructor
         end;
    first [ apply groupby_sum_ascending | apply groupby_mean_ascending
          | apply groupby_sum_NoDup | apply groupby_mean_NoDup ].
Qed.

(** X6: each aggregate is empty exactly when no input row has all of its
    key columns: [bar_data] when every row lacks Month or CancellationCode,
    [line_data] and the five delay tables when every row lacks Month or
    Reporting_Airline, [map_data] when every row lacks OriginState,
    [tree_data] when every row lacks DestState or Reporting_Airline.  An
    input table without rows gives nine empty aggregates. *)
Theorem aggregates_empty_iff (df : Table) :
  let c1 := compute_data_choice_1 df in
  let c2 := compute_data_choice_2 df in
  (bar_data c1 = []
   <-> forall r, In r df -> Month r = None \/ CancellationCode r = None)
  /\ (line_data c1 = []
      <-> forall r, In r df -> Month r = None \/ Reporting_Airline r = None)
  /\ (map_data c1 = [] <-> forall r, In r df -> OriginState r = None)
  /\ (tree_data c1 = []
      <-> forall r, In r df -> DestState r = None \/ Reporting_Airline r = None)
  /\ Forall (fun t => t = []
                      <-> forall r, In r df ->
                                    Month r = None \/ Reporting_Airline r = None)
            (delay_tables c2).
Proof.
  assert (Hkey2 : forall (A B : Type) (f : FlightRecord -> option A)
                         (g : FlightRecord -> option B),
             (forall r, In r df -> key2 (f r) (g r) = None)
             <-> (forall r, In r df -> f r = None \/ g r = None)).
  { intros A B f g. split; intros Hk r Hr; apply key2_None; auto. }
  cbv zeta. unfold delay_tables. simpl.
  repeat match goal with
         | |- _ /\ _ => split
         | |- Forall _ (_ :: _) => constructor
         | |- Forall _ [] => constructor
         end;
    try (rewrite groupby_mean_nil_iff; apply Hkey2).
  - rewrite groupby_sum_nil_iff. apply Hkey2.
  - rewrite groupby_sum_nil_iff. reflexivity.
  - rewrite groupby_sum_nil_iff. apply Hkey2.
Qed.

(** A table of one flight recorded without airline and without states:
    only [bar_data] aside, which needs a cancellation code, every aggregate
    that is keyed on them is empty although the table is not. *)
Lemma aggregates_empty_iff_witness :
  map_data (compute_data_choice_1 [Sample.anonymous_2010]) = []
  /\ line_data (compute_data_choice_1 [Sample.anonymous_2010]) = []
  /\ bar_data (compute_data_choice_1 [Sample.completed_2010; Sample.blank_2020])
     = [].
Proof.
  split; [|split].
  - apply (proj1 (proj2 (proj2 (aggregates_empty_iff [Sample.anonymous_2010])))).
    simpl. intros r [<-|[]]. reflexivity.
  - apply (proj1 (proj2 (aggregates_empty_iff [Sample.anonymous_2010]))).
    simpl. intros r [<-|[]]. right. reflexivity.
  - apply (proj1 (aggregates_empty_iff
                    [Sample.completed_2010; Sample.blank_2020])).
    simpl. intros r [<-|[<-|[]]]; right; reflexivity.
Defined.

(** ** The order of the input rows does not matter *)

Lemma Qsum_Permutation (l l' : list Q) :
  Permutation l l' -> (Qsum l == Qsum l')%Q.
Proof.
  induction 1 as [|x l l' _ IH|x y l|l l' l'' _ IH1 _ IH2]; simpl.
  - reflexivity.
  - now rewrite IH.
  - ring.
  - now rewrite IH1.
Qed.

Lemma filter_Permutation {A : Type} (p : A -> bool) (l l' : list A) :
  Permutation l l' -> Permutation (filter p l) (filter p l').
Proof.
  induction 1 as [|x l l' _ IH|x y l|l l' l'' _ IH1 _ IH2]; simpl.
  - constructor.
  - destruct (p x); auto.
  - destruct (p x), (p y); auto. apply perm_swap.
  - now transitivity (filter p l').
Qed.

Lemma dropna_Permutation (l l' : list (option Q)) :
  Permutation l l' -> Permutation (dropna l) (dropna l').
Proof.
  induction 1 as [|x l l' _ IH|x y l|l l' l'' _ IH1 _ IH2]; simpl.
  - constructor.
  - destruct x; auto.
  - destruct x, y; auto. apply perm_swap.
  - now transitivity (dropna l').
Qed.

Lemma mean_Permutation (l l' : list (option Q)) :
  Permutation l l' -> opt_Qeq (mean l) (mean l').
Proof.
  intros HP. apply dropna_Permutation in HP. unfold mean.
  pose proof (Qsum_Permutation _ _ HP) as Hsum.
  pose proof (Permutation_length HP) as Hlen.
  destruct (dropna l) as [|x vs], (dropna l') as [|x' vs'];
    try discriminate; simpl; auto.
  simpl in Hlen. injection Hlen as Hlen.
  change (x + Qsum vs == x' + Qsum vs')%Q in Hsum.
  change ((x + Qsum vs) / inject_Z (Z.of_nat (S (List.length vs)))
          == (x' + Qsum vs') / inject_Z (Z.of_nat (S (List.length vs'))))%Q.
  now rewrite Hsum, Hlen.
Qed.

Lemma Forall2_map_same {A B : Type} (R : B -> B -> Prop) (f g : A -> B)
      (l : list A) :
  (forall x, In x l -> R (f x) (g x)) -> Forall2 R (map f l) (map g l).
Proof.
  induction l as [|x l IH]; intros HR; simpl; constructor.
  - apply HR. now left.
  - apply IH. intros y Hy. apply HR. now right.
Qed.

Section OrderIndependence.
Context {K : Type} `{CmpLaws K}.
Variable key : FlightRecord -> option K.

Lemma groupby_sum_Permutation (col : FlightRecord -> option Q) df df' :
  Permutation df df' ->
  same_sums (groupby_sum key col df) (groupby_sum key col df').
Proof.
  intros HP. rewrite !groupby_sum_rows.
  rewrite <- (groupby_keys_Permutation key df df' HP).
  apply Forall2_map_same. intros k _. simpl. split; auto.
  apply Qsum_Permutation, dropna_Permutation, Permutation_map,
    filter_Permutation, HP.
Qed.

Lemma groupby_mean_Permutation (col : FlightRecord -> option Q) df df' :
  Permutation df df' ->
  same_means (groupby_mean key col df) (groupby_mean key col df').
Proof.
  intros HP. rewrite !groupby_mean_rows.
  rewrite <- (groupby_keys_Permutation key df df' HP).
  apply Forall2_map_same. intros k _. simpl. split; auto.
  apply mean_Permutation, Permutation_map, filter_Permutation, HP.
Qed.

End OrderIndependence.

(** X7: rearranging the rows of the input leaves the three sum aggregates
    as they are: the same keys in the same order, with equal sums, the
    numbers taken as exact rationals. *)
Theorem sums_ignore_row_order (df df' : Table) :
  Permutation df df' ->
  let c := compute_data_choice_1 df in
  let c' := compute_data_choice_1 df' in
  same_sums (bar_data c) (bar_data c')
  /\ same_sums (map_data c) (map_data c')
  /\ same_sums (tree_data c) (tree_data c').
Proof.
  intros HP. simpl. repeat split; now apply groupby_sum_Permutation.
Qed.

Lemma sums_ignore_row_order_witness :
  let c := compute_data_choice_1 [Sample.completed_2010; Sample.cancelled_2010] in
  let c' := compute_data_choice_1 [Sample.cancelled_2010; Sample.completed_2010] in
  same_sums (bar_data c) (bar_data c')
  /\ same_sums (map_data c) (map_data c')
  /\ same_sums (tree_data c) (tree_data c').
Proof.
  apply (sums_ignore_row_order
           [Sample.completed_2010; Sample.cancelled_2010]
           [Sample.cancelled_2010; Sample.completed_2010]).
  apply perm_swap.
Defined.

(** X8: rearranging the rows of the input leaves the mean aggregates as
    they are: [line_data] and the five delay tables keep their keys in the
    same order and their means stay missing where they were missing; the
    means that are numbers stay equal, the numbers taken as exact
    rationals. *)
Theorem means_ignore_row_order (df df' : Table) :
  Permutation df df' ->
  same_means (line_data (compute_data_choice_1 df))
             (line_data (compute_data_choice_1 df'))
  /\ Forall2 same_means (delay_tables (compute_data_choice_2 df))
                        (delay_tables (compute_data_choice_2 df')).
Proof.
  intros HP. unfold delay_tables. simpl.
  split; [|repeat constructor]; now apply groupby_mean_Permutation.
Qed.

Lemma means_ignore_row_order_witness :
  same_means
    (avg_car (compute_data_choice_2 [Sample.completed_2010; Sample.undelayed_2010]))
    (avg_car (compute_data_choice_2 [Sample.undelayed_2010; Sample.completed_2010])).
Proof.
  pose proof (proj2 (means_ignore_row_order
                       [Sample.completed_2010; Sample.undelayed_2010]
                       [Sample.undelayed_2010; Sample.completed_2010]
                       (perm_swap _ _ _))) as HF.
  unfold delay_tables in HF. now inversion HF.
Defined.

(** ** Totals across the years *)

Section MassOfRows.
Variable col : FlightRecord -> option Q.
Variable p : FlightRecord -> bool.

Lemma Series_sum_app (l1 l2 : list (option Q)) :
  (Series_sum (l1 ++ l2) == Series_sum l1 + Series_sum l2)%Q.
Proof. unfold Series_sum. now rewrite dropna_app, Qsum_app. Qed.

Lemma selected_mass_concat (ls : list Table) :
  (Qsum (map (fun l => Series_sum (map col (filter p l))) ls)
   == Series_sum (map col (filter p (List.concat ls))))%Q.
Proof.
  induction ls as [|l ls IH]; cbn [map List.concat].
  - reflexivity.
  - rewrite Qsum_cons, filter_app, map_app, Series_sum_app, IH. reflexivity.
Qed.

Lemma selected_mass_Permutation (l l' : Table) :
  Permutation l l' ->
  (Series_sum (map col (filter p l)) == Series_sum (map col (filter p l')))%Q.
Proof.
  intros HP. unfold Series_sum.
  apply Qsum_Permutation, dropna_Permutation, Permutation_map,
    filter_Permutation, HP.
Qed.

End MassOfRows.

Lemma filter_both {A : Type} (p q : A -> bool) (l : list A) :
  filter p (filter q l) = filter (fun x => q x && p x) l.
Proof.
  induction l as [|x l IH]; simpl; auto.
  destruct (q x); simpl; [destruct (p x)|]; congruence.
Qed.

Lemma Qsum_map_ext {A : Type} (f g : A -> Q) (l : list A) :
  (forall x, f x == g x)%Q -> (Qsum (map f l) == Qsum (map g l))%Q.
Proof.
  intros Hfg. induction l as [|x l IH]; simpl; [reflexivity|].
  now rewrite IH, Hfg.
Qed.

Lemma yearly_mass {K : Type} `{CmpLaws K} (key : FlightRecord -> option K)
      (t : Table) :
  (Qsum (map (fun y => Qsum (map snd (groupby_sum key Flights (filter_year t y))))
             year_list)
   == Series_sum
        (map Flights (filter (fun r => year_offered r && has_key key r) t)))%Q.
Proof.
  rewrite (Qsum_map_ext _
             (fun y => Series_sum
                         (map Flights (filter (has_key key) (filter_year t y)))))
    by (intros y; apply groupby_sum_mass).
  transitivity
    (Series_sum
       (map Flights
            (filter (has_key key)
                    (List.concat (map (filter_year t) year_list))))).
  - rewrite <- selected_mass_concat, map_map. reflexivity.
  - rewrite <- filter_both. apply selected_mass_Permutation.
    apply (filter_year_concat t year_list year_list_NoDup).
Qed.

(** X9: with the numbers taken as exact rationals, the [map_data] totals of
    the sixteen selectable years add up to the Flights total of the rows of
    the data set that have a Year of 2005-2020 and an OriginState, and the
    [tree_data] totals to that of the rows that have such a Year, a
    DestState and a Reporting_Airline: each of these flights is counted in
    the report of exactly one year, and every other flight in none. *)
Theorem yearly_totals_add_up (t : Table) :
  (Qsum (map (fun y => Qsum (map snd (map_data (compute_data_choice_1
                                                   (filter_year t y)))))
             year_list)
   == Series_sum
        (map Flights
             (filter (fun r => year_offered r && is_present (OriginState r)) t)))%Q
  /\ (Qsum (map (fun y => Qsum (map snd (tree_data (compute_data_choice_1
                                                       (filter_year t y)))))
                year_list)
      == Series_sum
           (map Flights
                (filter (fun r => year_offered r
                                  && (is_present (DestState r)
                                      && is_present (Reporting_Airline r)))
                        t)))%Q.
Proof.
  split.
  - exact (yearly_mass key_OriginState t).
  - etransitivity; [exact (yearly_mass key_DestState_Airline t)|].
    erewrite filter_ext; [reflexivity|].
    intros r. unfold has_key.
    now rewrite <- (has_key2 (DestState r) (Reporting_Airline r)).
Qed.
(** ** Numeric bounds *)

Lemma inject_Z_succ (n : nat) :
  (inject_Z (Z.of_nat (S n)) == inject_Z (Z.of_nat n) + 1)%Q.
Proof. rewrite Nat2Z.inj_succ, <- Z.add_1_r, inject_Z_plus. reflexivity. Qed.

Lemma Qsum_bounds (lo hi : Q) (vs : list Q) :
  Forall (fun v => lo <= v <= hi)%Q vs ->
  (inject_Z (Z.of_nat (List.length vs)) * lo <= Qsum vs
   /\ Qsum vs <= inject_Z (Z.of_nat (List.length vs)) * hi)%Q.
Proof.
  induction 1 as [|v vs [Hlo Hhi] _ [IHlo IHhi]].
  - cbn [List.length Qsum fold_right Z.of_nat]. change (inject_Z 0) with 0%Q.
    rewrite !Qmult_0_l. split; apply Qle_refl.
  - cbn [List.length Qsum fold_right]. rewrite inject_Z_succ. split.
    + setoid_replace ((inject_Z (Z.of_nat (List.length vs)) + 1) * lo)%Q
        with (lo + inject_Z (Z.of_nat (List.length vs)) * lo)%Q by ring.
      now apply Qplus_le_compat.
    + setoid_replace ((inject_Z (Z.of_nat (List.length vs)) + 1) * hi)%Q
        with (hi + inject_Z (Z.of_nat (List.length vs)) * hi)%Q by ring.
      now apply Qplus_le_compat.
Qed.

Lemma dropna_In (l : list (option Q)) (v : Q) :
  In v (dropna l) <-> In (Some v) l.
Proof.
  induction l as [|[x|] l IH]; simpl.
  - tauto.
  - rewrite IH. split; intros [E|HI]; auto; left; congruence.
  - rewrite IH. split; auto. intros [E|HI]; auto. discriminate.
Qed.

(** A mean lies between any two bounds of the values it averages. *)
Lemma mean_bounds (lo hi : Q) (l : list (option Q)) (m : Q) :
  (forall v, In (Some v) l -> lo <= v <= hi)%Q ->
  mean l = Some m -> (lo <= m <= hi)%Q.
Proof.
  intros Hb. unfold mean.
  assert (HF : Forall (fun v => lo <= v <= hi)%Q (dropna l)).
  { apply Forall_forall. intros v Hv. apply Hb. now apply dropna_In. }
  apply Qsum_bounds in HF as [Hlo Hhi].
  destruct (dropna l) as [|x vs]; [discriminate|].
  intros [= <-].
  assert (Hpos : (0 < inject_Z (Z.of_nat (List.length (x :: vs))))%Q).
  { rewrite <- (Zlt_Qlt 0). simpl List.length. lia. }
  split.
  - apply Qle_shift_div_l; auto. now rewrite Qmult_comm.
  - apply Qle_shift_div_r; auto. now rewrite Qmult_comm.
Qed.

Lemma groupby_mean_bounds {K : Type} `{CmpLaws K}
      (key : FlightRecord -> option K) (col : FlightRecord -> option Q)
      (lo hi : Q) (df : Table) :
  (forall r v, In r df -> col r = Some v -> lo <= v <= hi)%Q ->
  forall k m, In (k, Some m) (groupby_mean key col df) -> (lo <= m <= hi)%Q.
Proof.
  intros Hb k m HI. apply groupby_mean_In in HI as [Hm _].
  apply (mean_bounds lo hi (map col (filter (key_is key k) df))); auto.
  intros v Hv. apply in_map_iff in Hv as [r [Hc Hr]].
  apply filter_In in Hr as [Hr _]. eauto.
Qed.

(** X10: with the numbers taken as exact rationals, when every AirTime in
    the table lies between [lo] and [hi], so does every mean of
    [line_data]; and for each delay cause, when every value of its column
    lies between [lo] and [hi], so does every mean of its table.  (A mean
    rounded to binary64 may leave the interval by the rounding error.) *)
Theorem means_within_bounds (df : Table) (lo hi : Q) :
  ((forall r v, In r df -> AirTime r = Some v -> lo <= v <= hi)%Q ->
   forall m a v, In (m, a, Some v) (line_data (compute_data_choice_1 df)) ->
                 (lo <= v <= hi)%Q)
  /\ (forall c : DelayCause,
         (forall r v, In r df -> delay_col c r = Some v -> lo <= v <= hi)%Q ->
         forall m a v,
           In (m, a, Some v) (delay_table c (compute_data_choice_2 df)) ->
           (lo <= v <= hi)%Q).
Proof.
  split.
  - intros Hb m a v HI.
    exact (groupby_mean_bounds key_Month_Airline AirTime lo hi df Hb (m, a) v HI).
  - intros c Hb m a v HI. rewrite delay_table_eq in HI.
    exact (groupby_mean_bounds key_Month_Airline (delay_col c) lo hi df Hb
                               (m, a) v HI).
Qed.

Lemma means_within_bounds_witness :
  let df := [Sample.diverted_2009; Sample.completed_2010] in
  (0 <= 4 # 1 <= 10)%Q /\ (0 <= 130 # 1 <= 130)%Q.
Proof.
  destruct (means_within_bounds
              [Sample.diverted_2009; Sample.completed_2010] 0 10) as [_ Hdelay].
  destruct (means_within_bounds
              [Sample.diverted_2009; Sample.completed_2010] 0 130) as [Hair _].
  split.
  - apply (Hdelay Carrier) with (m := 7) (a := "UA"%string).
    + simpl. intros r v [<-|[<-|[]]] [= <-]; split; discriminate.
    + simpl. auto.
  - apply Hair with (m := 7) (a := "UA"%string).
    + simpl. intros r v [<-|[<-|[]]] [= <-]; split; discriminate.
    + simpl. auto.
Defined.

Lemma Series_sum_nonneg {A : Type} (f : A -> option Q) (l : list A) :
  (forall x v, In x l -> f x = Some v -> 0 <= v)%Q ->
  (0 <= Series_sum (map f l))%Q.
Proof.
  induction l as [|x l IH]; intros Hf; cbn [map].
  - apply Qle_refl.
  - rewrite Series_sum_cons.
    setoid_replace 0%Q with (0 + 0)%Q by ring.
    apply Qplus_le_compat.
    + destruct (f x) as [v|] eqn:E; simpl; [|apply Qle_refl].
      apply (Hf x v); auto. now left.
    + apply IH. intros y v Hy. apply Hf. now right.
Qed.

Lemma Series_sum_filter_le {A : Type} (f : A -> option Q) (p : A -> bool)
      (l : list A) :
  (forall x v, In x l -> f x = Some v -> 0 <= v)%Q ->
  (Series_sum (map f (filter p l)) <= Series_sum (map f l))%Q.
Proof.
  induction l as [|x l IH]; intros Hf; cbn [filter map].
  - apply Qle_refl.
  - assert (IH' : (Series_sum (map f (filter p l)) <= Series_sum (map f l))%Q).
    { apply IH. intros y v Hy. apply Hf. now right. }
    assert (Hx : (0 <= value_of (f x))%Q).
    { destruct (f x) as [v|] eqn:E; simpl; [|apply Qle_refl].
      apply (Hf x v); auto. now left. }
    rewrite (Series_sum_cons (f x) (map f l)).
    destruct (p x); cbn [map].
    + rewrite Series_sum_cons.
      apply Qplus_le_compat; [apply Qle_refl|exact IH'].
    + setoid_replace (Series_sum (map f (filter p l)))
        with (0 + Series_sum (map f (filter p l)))%Q by ring.
      apply Qplus_le_compat; [exact Hx|exact IH'].
Qed.

Lemma groupby_sum_bounds {K : Type} `{CmpLaws K}
      (key : FlightRecord -> option K) (col : FlightRecord -> option Q)
      (df : Table) :
  (forall r v, In r df -> col r = Some v -> 0 <= v)%Q ->
  forall k v, In (k, v) (groupby_sum key col df) ->
              (0 <= v <= Series_sum (map col df))%Q.
Proof.
  intros Hpos k v HI. apply groupby_sum_In in HI as [-> _]. split.
  - apply Series_sum_nonneg. intros r v Hr. apply filter_In in Hr as [Hr _].
    now apply Hpos.
  - now apply Series_sum_filter_le.
Qed.

(** X11: with the numbers taken as exact rationals (no rounding, no
    overflow), when no row has a negative Flights count, every count that
    [bar_data], [map_data] and [tree_data] report is at least zero and at
    most the Flights total of the input table. *)
Theorem counts_within_total (df : Table) :
  (forall r v, In r df -> Flights r = Some v -> 0 <= v)%Q ->
  let c := compute_data_choice_1 df in
  let total := Series_sum (map Flights df) in
  (forall m code v, In (m, code, v) (bar_data c) -> 0 <= v <= total)%Q
  /\ (forall s v, In (s, v) (map_data c) -> 0 <= v <= total)%Q
  /\ (forall d a v, In (d, a, v) (tree_data c) -> 0 <= v <= total)%Q.
Proof.
  intros Hpos. cbv zeta. simpl. split; [|split].
  - intros m code v HI.
    exact (groupby_sum_bounds key_Month_CancellationCode Flights df Hpos
                              (m, code) v HI).
  - intros s v HI.
    exact (groupby_sum_bounds key_OriginState Flights df Hpos s v HI).
  - intros d a v HI.
    exact (groupby_sum_bounds key_DestState_Airline Flights df Hpos (d, a) v HI).
Qed.

Lemma counts_within_total_witness :
  (0 <= 3 <= Series_sum (map Flights Sample.table))%Q.
Proof.
  assert (Hpos : forall r v, In r Sample.table -> Flights r = Some v ->
                             (0 <= v)%Q).
  { simpl. intros r v [<-|[<-|[<-|[<-|[<-|[]]]]]] [= <-]; discriminate. }
  apply (proj1 (proj2 (counts_within_total Sample.table Hpos)) "TX"%string).
  right. right. left. reflexivity.
Defined.

(** ** The colour range of the map *)

Lemma fold_max_spec (l : list Q) (v : Q) :
  let hi := fold_left (fun m x => if Qle_bool m x then x else m) l v in
  (hi = v \/ In hi l) /\ (v <= hi)%Q /\ Forall (fun x => x <= hi)%Q l.
Proof.
  revert v. induction l as [|x l IH]; intros v; simpl.
  - split; [auto|]. split; [apply Qle_refl|constructor].
  - destruct (Qle_bool v x) eqn:E.
    + apply Qle_bool_iff in E.
      destruct (IH x) as [Hin [Hle HF]]. split; [|split].
      * destruct Hin as [->|Hin]; auto.
      * eapply Qle_trans; eauto.
      * constructor; auto.
    + assert (Hxv : (x <= v)%Q).
      { apply Qlt_le_weak, Qnot_le_lt. intros Hle.
        apply Qle_bool_iff in Hle. congruence. }
      destruct (IH v) as [Hin [Hle HF]]. split; [|split]; auto.
      * destruct Hin as [->|Hin]; auto.
      * constructor; auto. eapply Qle_trans; eauto.
Qed.

Lemma Qmax_list_spec (l : list Q) :
  match Qmax_list l with
  | None => l = []
  | Some hi => In hi l /\ Forall (fun x => x <= hi)%Q l
  end.
Proof.
  destruct l as [|v l]; simpl; auto.
  destruct (fold_max_spec l v) as [Hin [Hle HF]]. split.
  - destruct Hin as [->|Hin]; auto.
  - constructor; auto.
Qed.

(** X12: the map that [get_graph] draws for the performance report has a
    colour range starting at 0 whose upper end is the count of some state
    of [map_data] and is not exceeded by the count of any state; the upper
    end is missing exactly when [map_data] has no row, that is when no row
    of the table has an OriginState. *)
Theorem choropleth_range_covers (df : Table) (data : list (string * Q))
        (lo : Q) (hi : option Q) (title : string) :
  In (px_choropleth data (lo, hi) title)
     (performance_figures (compute_data_choice_1 df)) ->
  data = map_data (compute_data_choice_1 df)
  /\ lo = 0%Q
  /\ match hi with
     | None => data = [] /\ forall r, In r df -> OriginState r = None
     | Some h => (exists s, In (s, h) data)
                 /\ forall s v, In (s, v) data -> (v <= h)%Q
     end.
Proof.
  unfold performance_figures.
  intros [Hf|[Hf|[Hf|[Hf|[Hf|[]]]]]]; try discriminate.
  injection Hf as <- <- <- _. split; auto. split; auto.
  pose proof (Qmax_list_spec (map snd (map_data (compute_data_choice_1 df))))
    as Hmax.
  destruct (Qmax_list _) as [h|].
  - destruct Hmax as [Hin HF]. split.
    + apply in_map_iff in Hin as [[s v] [E Hin]]. simpl in E. subst v. eauto.
    + intros s v Hv. rewrite Forall_forall in HF. apply HF.
      apply in_map_iff. exists (s, v). auto.
  - apply map_eq_nil in Hmax. split; auto. simpl in Hmax.
    exact (proj1 (groupby_sum_nil_iff key_OriginState Flights df) Hmax).
Qed.

Lemma choropleth_range_covers_witness :
  (exists s, In (s, 3%Q) (map_data (compute_data_choice_1 Sample.table)))
  /\ forall s v, In (s, v) (map_data (compute_data_choice_1 Sample.table)) ->
                 (v <= 3)%Q.
Proof.
  assert (HI : In (px_choropleth (map_data (compute_data_choice_1 Sample.table))
                                 (0%Q, Some 3%Q)
                                 "Number of flights from origin state")
                  (performance_figures (compute_data_choice_1 Sample.table))).
  { right. right. left. reflexivity. }
  apply choropleth_range_covers in HI as [_ [_ Hhi]]. exact Hhi.
Defined.

(** * Further properties of the callback *)

(** X14: for a selected year that no row of the data set has, [get_graph]
    does not raise: it returns the five figures of the chosen report, each
    drawn over an empty table, the map with no upper end of its colour
    range. *)
Theorem get_graph_empty_year (chart : option string) (y : Z) (g : Globals) :
  (forall r, In r (airline_data g) -> Year r <> Some y) ->
  result (get_graph chart (Some y) g)
  = inr (if is_OPT1 chart
         then performance_figures (mkChoice1 [] [] [] [] [])
         else delay_figures (mkChoice2 [] [] [] [] [])).
Proof.
  intros Hy.
  assert (E : filter_year (airline_data g) y = []).
  { unfold filter_year.
    destruct (filter _ (airline_data g)) as [|r l] eqn:Ef; auto.
    assert (Hr : In r (filter (fun r => eq_int (Year r) y) (airline_data g))).
    { rewrite Ef. now left. }
    apply filter_In in Hr as [Hr Hyr]. apply eq_int_true in Hyr.
    destruct (Hy r Hr Hyr). }
  unfold get_graph. simpl.
  destruct (is_OPT1 chart); simpl; rewrite E; reflexivity.
Qed.

Lemma get_graph_empty_year_witness :
  result (get_graph (Some "OPT1"%string) (Some 2015) (mkGlobals Sample.table))
  = inr (performance_figures (mkChoice1 [] [] [] [] [])).
Proof.
  apply (get_graph_empty_year (Some "OPT1"%string) 2015 (mkGlobals Sample.table)).
  simpl. intros r [<-|[<-|[<-|[<-|[<-|[]]]]]]; discriminate.
Defined.

(** X15: in the performance report of year [y], the pie chart is drawn over
    exactly the rows of the loaded data set that have Year [y] and a
    DivAirportLandings other than zero. *)
Theorem get_graph_pie_rows (y : Z) (g : Globals) (figs : list Figure)
        (data : Table) (title : string) :
  result (get_graph (Some "OPT1"%string) (Some y) g) = inr figs ->
  In (px_pie data title) figs ->
  forall r, In r data
            <-> In r (airline_data g) /\ Year r = Some y
                /\ ~ landings_zero r.
Proof.
  intros [= <-].
  intros [Hf|[Hf|[Hf|[Hf|[Hf|[]]]]]]; try discriminate.
  injection Hf as <- _. intros r. simpl.
  unfold filter_year. rewrite !filter_In, ne_zero_true, eq_int_true. tauto.
Qed.

Lemma get_graph_pie_rows_witness :
  In Sample.diverted_2009 Sample.table
  /\ Year Sample.diverted_2009 = Some 2009
  /\ ~ landings_zero Sample.diverted_2009.
Proof.
  apply (get_graph_pie_rows 2009 (mkGlobals Sample.table)
           (performance_figures
              (compute_data_choice_1 (filter_year Sample.table 2009)))
           [Sample.diverted_2009] "% of flights by reporting airline").
  - reflexivity.
  - right. left. reflexivity.
  - now left.
Defined.

(** ** The dropdowns *)

(** X16: the year dropdown offers exactly the years 2005 to 2020, both
    included and 2021 not, each once and in ascending order, with the year
    itself as label and as value. *)
Theorem year_options_range :
  (forall label value,
      In (label, value) year_options <-> label = value /\ 2005 <= value <= 2020)
  /\ List.length year_options = 16%nat
  /\ StronglySorted Z.lt (map snd year_options).
Proof.
  split; [|split].
  - intros label value. unfold year_options. rewrite in_map_iff. split.
    + intros [i [[= <- <-] Hi]]. split; auto. now apply year_list_range.
    + intros [-> Hr]. exists value. split; auto. now apply year_list_range.
  - reflexivity.
  - unfold year_options, year_list. rewrite !map_map. simpl.
    repeat (constructor; [|repeat (constructor; [lia|]); constructor]).
    constructor.
Qed.

(** X17: for every entry of the report-type dropdown and every entry of the
    year dropdown, [get_graph] called with their values returns without
    raising; the entry labelled "Yearly Airline Performance Report" gives
    the performance figures, the other one the delay figures, computed over
    rows that all have the year shown on the year entry. *)
Theorem dropdown_selection_renders (g : Globals) (label value : string)
        (ylabel yvalue : Z) :
  In (label, value) report_type_options ->
  In (ylabel, yvalue) year_options ->
  let df := filter_year (airline_data g) yvalue in
  result (get_graph (Some value) (Some yvalue) g)
  = inr (if String.eqb label "Yearly Airline Performance Report"
         then performance_figures (compute_data_choice_1 df)
         else delay_figures (compute_data_choice_2 df))
  /\ Forall (fun r => Year r = Some ylabel) df.
Proof.
  intros Hrep Hyear. cbv zeta. split.
  - destruct Hrep as [[= <- <-]|[[= <- <-]|[]]]; reflexivity.
  - unfold year_options in Hyear.
    apply in_map_iff in Hyear as [i [[= <- <-] _]].
    apply Forall_forall. intros r Hr. unfold filter_year in Hr.
    apply filter_In in Hr as [_ Hr]. now apply eq_int_true.
Qed.

Lemma dropdown_selection_renders_witness :
  result (get_graph (Some "OPT2"%string) (Some 2010) (mkGlobals Sample.table))
  = inr (delay_figures
           (compute_data_choice_2 (filter_year Sample.table 2010))).
Proof.
  apply (dropdown_selection_renders (mkGlobals Sample.table)
           "Yearly Airline Delay Report" "OPT2" 2010 2010).
  - right. left. reflexivity.
  - unfold year_options. apply in_map_iff. exists 2010. split; auto.
    apply year_list_range. lia.
Defined.
